(** * Quantum Job Tracker: the job simulation engine of [app.py]

    A shallow embedding of [BlueQubitJobSimulator] and of the helpers it
    calls ([get_display_tz], [now_iso]) together with the part of the HTTP
    layer that feeds [get_jobs].

    Modelling conventions.
    - A job is the Python dict built by [create_job]; its seven keys are the
      fields of the record [Job].  The value of ['status'] is one of four
      string literals and is modelled by the enumeration [Status].
    - Python [int] is [Z]; Python [str] is [string]; a Python [float] is
      modelled by an exact rational ([Q]).
    - The module-level generator of [random] is an explicit state [Rng]: an
      unconstrained stream of words and a read position.
    - The wall clock and the time-zone database belong to the host and are
      the fields of [Host].
    - Every method runs to completion before the next one starts: the
      background thread is the operation [SimulationTick], interleaved with
      the request-driven operations in an arbitrary order.
    - Of the views, a request is what the view reads from it, a response is
      its redirect, template or JSON body, and the session is a finite map
      from strings to strings.  Python's builtin [int] and the values of a
      parsed JSON body are not code of the program and are left open. *)

From Stdlib Require Import ZArith QArith String Ascii Decimal DecimalString DecimalZ.
From Stdlib Require Import OrderedTypeEx Sorted Permutation Lia.
From stdpp Require Import base list sorting strings gmap.

Close Scope Q_scope.
Local Open Scope string_scope.
Local Open Scope list_scope.
Local Open Scope Z_scope.

(** ** Data model *)

Inductive Status : Set := QUEUED | RUNNING | COMPLETED | FAILED.

#[global] Instance Status_eq_dec : EqDecision Status.
Proof. solve_decision. Defined.

Record Job : Type := mkJob {
  id : string;
  type : string;
  status : Status;
  created_at : string;
  estimated_runtime : Z;
  success_probability : Q;
  manual : bool
}.

(** [job['status'] = s]: the only in-place mutation of a job dict. *)
Definition set_status (s : Status) (j : Job) : Job :=
  {| id := id j; type := type j; status := s; created_at := created_at j;
     estimated_runtime := estimated_runtime j;
     success_probability := success_probability j; manual := manual j |}.

Record Simulator : Type := mkSimulator {
  jobs : list Job;
  job_counter : Z;
  running : bool;
  max_jobs : Z
}.

(** ** The random module *)

Record Rng : Type := mkRng { stream : nat -> N; pos : nat }.

Definition next_word (g : Rng) : N * Rng :=
  (stream g (pos g), {| stream := stream g; pos := S (pos g) |}).

(** [random.random()]: a 53-bit fraction in [0, 1). *)
Definition random (g : Rng) : Q * Rng :=
  let (w, g') := next_word g in
  (Qmake (Z.of_N (w mod 2 ^ 53)) (2 ^ 53), g').

Definition randbelow (n : N) (g : Rng) : N * Rng :=
  let (w, g') := next_word g in ((w mod n)%N, g').

(** [random.choice(seq)] for a non-empty literal [d :: seq]. *)
Definition choice {A : Type} (d : A) (seq : list A) (g : Rng) : A * Rng :=
  let (i, g') := randbelow (N.of_nat (length (d :: seq))) g in
  (nth (N.to_nat i) (d :: seq) d, g').

(** [random.randint(a, b)] *)
Definition randint (a b : Z) (g : Rng) : Z * Rng :=
  let (r, g') := randbelow (Z.to_N (b - a + 1)) g in (a + Z.of_N r, g').

(** [random.uniform(a, b)] is [a + (b - a) * random()]. *)
Definition uniform (a b : Q) (g : Rng) : Q * Rng :=
  let (x, g') := random g in ((a + (b - a) * x)%Q, g').

Definition Qltb (x y : Q) : bool :=
  match (x ?= y)%Q with Lt => true | _ => false end.

(** ** Host: configuration, zone database, clock *)

Record Zone : Type := mkZone { key : string; utcoffset : Z }.

Record Host : Type := mkHost {
  (** [app.config.get('DISPLAY_TZ')] *)
  config_DISPLAY_TZ : option string;
  (** [os.environ.get('DISPLAY_TZ')] *)
  environ_DISPLAY_TZ : option string;
  (** [ZoneInfo(name)]; [None] stands for any raised exception *)
  ZoneInfo : string -> option Zone;
  (** [datetime.now(tz=tz).isoformat()] at the n-th reading of the clock *)
  isoformat_now : Zone -> nat -> string
}.

Inductive Exn : Set := ZoneInfoNotFoundError | ValueError.

Inductive Result (A : Type) : Type :=
| Ok (a : A)
| Raise (e : Exn).
Arguments Ok {A} a.
Arguments Raise {A} e.

(** Python's [x or y] on optional strings: [None] and the empty string are
    falsy. *)
Definition py_or (x : option string) (y : option string) : option string :=
  match x with
  | Some EmptyString | None => y
  | Some s => Some s
  end.

Definition get_display_tz (h : Host) : string :=
  match py_or (config_DISPLAY_TZ h) (py_or (environ_DISPLAY_TZ h) (Some "UTC")) with
  | Some s => s
  | None => "UTC"
  end.

(** The zone [now_iso] ends up with: the [try] body, then the handler. *)
Definition now_zone (h : Host) : Result Zone :=
  let tz_name := get_display_tz h in
  match ZoneInfo h tz_name with
  | Some tz => Ok tz
  | None =>
      match ZoneInfo h "UTC" with
      | Some tz => Ok tz
      | None => Raise ZoneInfoNotFoundError
      end
  end.

Definition now_iso (h : Host) (clock : nat) : Result string * nat :=
  match now_zone h with
  | Ok tz => (Ok (isoformat_now h tz clock), S clock)
  | Raise e => (Raise e, clock)
  end.

(** ** The simulator *)

Record World : Type := mkWorld { sim : Simulator; rng : Rng; clock : nat }.

(** [BlueQubitJobSimulator.__init__] *)
Definition init (max_jobs : Z) : Simulator :=
  {| jobs := []; job_counter := 1; running := true; max_jobs := max_jobs |}.

(** [str(n)] for an integer. *)
Definition str (n : Z) : string := NilZero.string_of_int (Z.to_int n).

Definition algorithms_tail : list string :=
  [ "Variational Quantum Eigensolver"; "Grover's Algorithm";
    "Quantum Phase Estimation" ].

(** [self.jobs.append(job)] followed by the size check and [self.jobs.pop(0)].
    The list is non-empty after the append, so [pop(0)] cannot raise. *)
Definition append_bounded (max_jobs : Z) (l : list Job) (job : Job) : list Job :=
  let l' := l ++ [job] in
  if max_jobs <? Z.of_nat (length l') then tail l' else l'.

Definition create_job (h : Host) (manual : bool) (w : World) : Result Job * World :=
  let s := sim w in
  let job_id := ("BQJ-" ++ str (job_counter s))%string in
  let (ty, g1) := choice "Quantum Fourier Transform" algorithms_tail (rng w) in
  match now_iso h (clock w) with
  | (Raise e, c1) => (Raise e, {| sim := s; rng := g1; clock := c1 |})
  | (Ok ts, c1) =>
      let (rt, g2) := randint 30 300 g1 in
      let (sp, g3) := uniform (85 # 1) (995 # 10) g2 in
      let job := {| id := job_id; type := ty; status := QUEUED; created_at := ts;
                    estimated_runtime := rt; success_probability := sp;
                    manual := manual |} in
      (Ok job,
       {| sim := {| jobs := append_bounded (max_jobs s) (jobs s) job;
                    job_counter := job_counter s + 1;
                    running := running s;
                    max_jobs := max_jobs s |};
          rng := g3; clock := c1 |})
  end.

(** The body of the [for] loop of [update_jobs] for one job. *)
Definition update_job (j : Job) (g : Rng) : Job * Rng :=
  match status j with
  | QUEUED =>
      let (x, g1) := random g in
      if Qltb x (4 # 10) then (set_status RUNNING j, g1) else (j, g1)
  | RUNNING =>
      let (x, g1) := random g in
      if Qltb x (3 # 10) then
        let (y, g2) := random g1 in
        if Qltb y (success_probability j / (100 # 1))%Q
        then (set_status COMPLETED j, g2)
        else (set_status FAILED j, g2)
      else (j, g1)
  | COMPLETED | FAILED => (j, g)
  end.

Fixpoint update_list (l : list Job) (g : Rng) : list Job * Rng :=
  match l with
  | [] => ([], g)
  | j :: l' =>
      let (j', g1) := update_job j g in
      let (l'', g2) := update_list l' g1 in
      (j' :: l'', g2)
  end.

Definition update_jobs (w : World) : World :=
  let (l, g) := update_list (jobs (sim w)) (rng w) in
  {| sim := {| jobs := l; job_counter := job_counter (sim w);
               running := running (sim w); max_jobs := max_jobs (sim w) |};
     rng := g; clock := clock w |}.

(** [status_order], the dict literal of [get_jobs]; every status is a key. *)
Definition status_order (s : Status) : Z :=
  match s with
  | RUNNING => 0
  | QUEUED => 1
  | FAILED => 2
  | COMPLETED => 3
  end.

(** The sort key [(status_order[j['status']], j['created_at'])]. *)
Definition sort_key (j : Job) : Z * string :=
  (status_order (status j), created_at j).

(** [<] on the key tuples: the first components that differ decide. *)
Definition tuple_lt (a b : Z * string) : bool :=
  if fst a =? fst b then String.ltb (snd a) (snd b) else fst a <? fst b.

(** [sorted(l, key=key)]: Python's sort is stable and only asks [<] of the
    keys.  Insertion from the right is a stable sort, and a stable sort has
    one possible result. *)
Section Sorted.
Context {A K : Type} (lt : K -> K -> bool) (sort_by : A -> K).

Fixpoint insert_stable (x : A) (l : list A) : list A :=
  match l with
  | [] => [x]
  | y :: l' =>
      if lt (sort_by y) (sort_by x) then y :: insert_stable x l'
      else x :: y :: l'
  end.

Fixpoint sorted (l : list A) : list A :=
  match l with
  | [] => []
  | x :: l' => insert_stable x (sorted l')
  end.
End Sorted.

(** The slice [l[start:]]: a negative start counts from the end, and the
    result is clamped to the list. *)
Definition slice_from {A : Type} (l : list A) (start : Z) : list A :=
  let n := Z.of_nat (length l) in
  let lo := if start <? 0 then Z.max (start + n) 0 else Z.min start n in
  drop (Z.to_nat lo) l.

Definition get_jobs (l : list Job) (limit : Z) : list Job :=
  let sorted_jobs := sorted tuple_lt sort_key l in
  slice_from sorted_jobs (- limit).

Definition clear_completed (s : Simulator) : Z * Simulator :=
  let completed_count :=
    Z.of_nat (length (filter (fun j => status j = COMPLETED) (jobs s))) in
  (completed_count,
   {| jobs := filter (fun j => status j <> COMPLETED) (jobs s);
      job_counter := job_counter s; running := running s;
      max_jobs := max_jobs s |}).

(** What [get_job] returns: a job dict, or the empty dict [{}]. *)
Inductive Dict : Type :=
| JobDict (j : Job)
| EmptyDict.

Fixpoint get_job (l : list Job) (job_id : string) : Dict :=
  match l with
  | [] => EmptyDict
  | job :: l' =>
      if String.eqb (id job) job_id then JobDict job else get_job l' job_id
  end.

Definition with_rng (g : Rng) (w : World) : World :=
  {| sim := sim w; rng := g; clock := clock w |}.

(** One iteration of the [while] loop of [simulation_loop] (the sleep is not
    modelled).  An exception leaving [create_job] ends the iteration. *)
Definition simulation_tick (h : Host) (w : World) : Result unit * World :=
  if running (sim w) then
    let (x, g1) := random (rng w) in
    if Qltb x (5 # 10) then
      match create_job h false (with_rng g1 w) with
      | (Raise e, w1) => (Raise e, w1)
      | (Ok _, w1) => (Ok tt, update_jobs w1)
      end
    else (Ok tt, update_jobs (with_rng g1 w))
  else (Ok tt, w).

(** ** Engine operations and their traces *)

Inductive Op : Type :=
| CreateJob (manual : bool)
| UpdateJobs
| GetJobs (limit : Z)
| ClearCompleted
| GetJob (job_id : string)
| SimulationTick.

Inductive Value : Type :=
| VJob (j : Job)
| VJobs (l : list Job)
| VInt (n : Z)
| VDict (d : Dict)
| VNone.

Definition with_sim (s : Simulator) (w : World) : World :=
  {| sim := s; rng := rng w; clock := clock w |}.

Definition step (h : Host) (op : Op) (w : World) : Result Value * World :=
  match op with
  | CreateJob manual =>
      match create_job h manual w with
      | (Ok j, w') => (Ok (VJob j), w')
      | (Raise e, w') => (Raise e, w')
      end
  | UpdateJobs => (Ok VNone, update_jobs w)
  | GetJobs limit => (Ok (VJobs (get_jobs (jobs (sim w)) limit)), w)
  | ClearCompleted =>
      let (n, s) := clear_completed (sim w) in (Ok (VInt n), with_sim s w)
  | GetJob job_id => (Ok (VDict (get_job (jobs (sim w)) job_id)), w)
  | SimulationTick =>
      match simulation_tick h w with
      | (Ok _, w') => (Ok VNone, w')
      | (Raise e, w') => (Raise e, w')
      end
  end.

(** The world after a sequence of operations. *)
Definition exec (h : Host) (ops : list Op) (w : World) : World :=
  fold_left (fun w op => snd (step h op w)) ops w.

(** The jobs handed out by [create_job] during a sequence of operations, in
    the order of their creation (manual and automatic). *)
Definition created_by (h : Host) (op : Op) (w : World) : list Job :=
  match op with
  | CreateJob manual =>
      match fst (create_job h manual w) with Ok j => [j] | Raise _ => [] end
  | SimulationTick =>
      if running (sim w) then
        let (x, g1) := random (rng w) in
        if Qltb x (5 # 10) then
          match fst (create_job h false (with_rng g1 w)) with
          | Ok j => [j]
          | Raise _ => []
          end
        else []
      else []
  | _ => []
  end.

Fixpoint created (h : Host) (ops : list Op) (w : World) : list Job :=
  match ops with
  | [] => []
  | op :: ops' => created_by h op w ++ created h ops' (snd (step h op w))
  end.

(** The world in which a new simulator starts. *)
Definition boot (max_jobs : Z) (g : Rng) (c : nat) : World :=
  {| sim := init max_jobs; rng := g; clock := c |}.

(** ** The HTTP layer in front of [get_jobs] *)

Section Builtins.
(** Python's builtin [int] applied to text: the integer read, or the
    exception raised.  It is not code of this program and is left open. *)
Variable int : string -> Result Z.

(** [get_jobs_api]: [request.args.get('limit', 50)] is the query parameter
    when present and the integer 50 otherwise ([int(50)] is 50); the payload
    of the JSON response is the list of jobs.  An exception raised by [int]
    leaves the handler. *)
Definition get_jobs_api (arg_limit : option string) (w : World) : Result (list Job) :=
  match (match arg_limit with Some s => int s | None => Ok 50 end) with
  | Ok limit => Ok (get_jobs (jobs (sim w)) limit)
  | Raise e => Raise e
  end.
End Builtins.

(** ** Notions used by the specifications *)

(** The edges of the status chain. *)
Inductive transition : Status -> Status -> Prop :=
| start_running : transition QUEUED RUNNING
| run_completed : transition RUNNING COMPLETED
| run_failed : transition RUNNING FAILED.

Definition terminal (s : Status) : Prop := s = COMPLETED \/ s = FAILED.

(** [j'] is the dict [j] with at most its status rewritten. *)
Definition same_but_status (j j' : Job) : Prop := j' = set_status (status j') j.

(** One visit of the update loop: nothing happens, or one edge is taken. *)
Definition advanced (j j' : Job) : Prop :=
  j' = j \/ (transition (status j) (status j') /\ same_but_status j j').

(** [f'BQJ-{n}'] *)
Definition mk_id (n : Z) : string := ("BQJ-" ++ str n)%string.

(** The order in which [sorted] leaves two keys: the second is not below
    the first. *)
Definition key_le (j1 j2 : Job) : Prop :=
  tuple_lt (sort_key j2) (sort_key j1) = false.

(** ** A concrete host and generator, for examples *)

Definition host0 : Host :=
  {| config_DISPLAY_TZ := Some "Asia/Kolkata";
     environ_DISPLAY_TZ := None;
     ZoneInfo := fun s =>
       if String.eqb s "UTC" then Some (mkZone "UTC" 0)
       else if String.eqb s "Asia/Kolkata" then Some (mkZone "Asia/Kolkata" 330)
       else None;
     isoformat_now := fun z n => (key z ++ "@" ++ str (Z.of_nat n))%string |}.

Definition rng0 : Rng :=
  {| stream := fun n => (N.of_nat n * (2 ^ 51 + 7) + 12345)%N; pos := 0 |}.

Definition job0 : Job :=
  {| id := "BQJ-1"; type := "Grover's Algorithm"; status := RUNNING;
     created_at := "2024-01-01T00:00:00+00:00"; estimated_runtime := 30;
     success_probability := 90 # 1; manual := true |}.

Definition ops0 : list Op :=
  [CreateJob true; SimulationTick; SimulationTick; CreateJob false;
   SimulationTick; UpdateJobs; CreateJob true; UpdateJobs].

Definition world0 : World := exec host0 ops0 (boot 3 rng0 0).

Definition done0 : Job := nth 1 (jobs (sim world0)) job0.

Definition first_job : Job :=
  match fst (create_job host0 true (boot 3 rng0 0)) with
  | Ok j => j
  | Raise _ => job0
  end.

Definition four_creates : list Op :=
  [CreateJob true; CreateJob false; CreateJob true; CreateJob true].

Definition created0 (i : nat) : Job :=
  nth i (created host0 four_creates (boot 3 rng0 0)) job0.

(** A host configured with a name its zone database does not know. *)
Definition host1 : Host :=
  {| config_DISPLAY_TZ := None;
     environ_DISPLAY_TZ := Some "Mars/Phobos";
     ZoneInfo := ZoneInfo host0;
     isoformat_now := isoformat_now host0 |}.

(** A reader of plain decimal text, to stand for the builtin in examples. *)
Definition decimal_reader (s : string) : Result Z :=
  match NilZero.int_of_string s with
  | Some d => Ok (Z.of_int d)
  | None => Raise ValueError
  end.

(** The spec's words "the last [n] entries" of a sequence: its suffix of
    length [n], the whole sequence when it is shorter, nothing for [n = 0]. *)
Definition last_entries {A : Type} (n : Z) (l : list A) : list A :=
  drop (length l - Z.to_nat n) l.

(** A host without a zone database. *)
Definition host2 : Host :=
  {| config_DISPLAY_TZ := Some "Asia/Kolkata";
     environ_DISPLAY_TZ := None;
     ZoneInfo := fun _ => None;
     isoformat_now := isoformat_now host0 |}.

(** ** Further inputs for examples *)

Definition running3 : Job :=
  nth 2 (jobs (sim (exec host0 (take 5 ops0) (boot 3 rng0 0)))) job0.

Definition fifth_job : Job :=
  match fst (create_job host0 true world0) with
  | Ok j => j
  | Raise _ => job0
  end.


(** How many jobs of a collection are in a given status. *)
Definition count_status (s : Status) (l : list Job) : nat :=
  count_occ Status_eq_dec (status <$> l) s.


(** ** The pages behind the session: login, logout, dashboard *)

(** The session of a request, a dict from strings to strings, and the
    [USERS] table. *)
Abbreviation Session := (gmap string string).

Definition USERS : gmap string string :=
  <["admin" := "admin"]> (<["akhil" := "akhil"]> ∅).

Inductive Method : Set := GET | POST.

(** A request as the views read it: [request.method], [request.path],
    [request.args] and [request.form] (the first value of each key). *)
Record Request : Type := mkRequest {
  method : Method;
  path : string;
  args : gmap string string;
  form : gmap string string
}.

Inductive Endpoint : Set := ep_index | ep_login.

(** Where a redirect points: a URL taken as it is, or [url_for(endpoint)]
    with an optional [next] value. *)
Inductive Location : Type :=
| Url (u : string)
| UrlFor (e : Endpoint) (next : option string).

(** What a view returns: a redirect, a rendered template with its
    arguments, or a JSON body with its status code. *)
Inductive Response : Type :=
| Redirect (to : Location)
| Template (name : string) (context : list (string * option string))
| JsonError (code : Z) (error : string)
| JsonRedirect (to : Location).

(** [login_required(f)] *)
Definition login_required (f : Request -> Session -> Response * Session)
    (r : Request) (s : Session) : Response * Session :=
  match py_or (s !! "user") None with
  | None => (Redirect (UrlFor ep_login (Some (path r))), s)
  | Some _ => f r s
  end.

Definition login (r : Request) (s : Session) : Response * Session :=
  match method r with
  | POST =>
      let username := default "" (form r !! "username") in
      let password := default "" (form r !! "password") in
      if bool_decide (USERS !! username = Some password) then
        let s' := <["user" := username]> s in
        let next_url :=
          match py_or (args r !! "next") None with
          | Some u => Url u
          | None => UrlFor ep_index None
          end in
        (Redirect next_url, s')
      else
        (Template "login.html" [("error", Some "Invalid username or password")], s)
  | GET => (Template "login.html" [], s)
  end.

Definition logout (r : Request) (s : Session) : Response * Session :=
  (Redirect (UrlFor ep_login None), ∅).

Definition index : Request -> Session -> Response * Session :=
  login_required
    (fun r s => (Template "dashboard.html" [("user", s !! "user")], s)).

(** ** The development sign-in *)

(** [app.debug] and the environment variable the view reads. *)
Record DevFlags : Type := mkDevFlags {
  debug : bool;
  ALLOW_DEV_GOOGLE_UNVERIFIED : option string
}.

Inductive Outcome (A : Type) : Type :=
| Returns (a : A)
| RaisesAttributeError.
Arguments Returns {A} a.
Arguments RaisesAttributeError {A}.

Section Json.
(** The values a JSON body parses to, left open: all the view asks of one is
    whether it is truthy and, when it is a dict, what its keys map to. *)
Context {PyObj : Type}.
Variable truthy : PyObj -> bool.
Variable as_dict : PyObj -> option (string -> option PyObj).

(** [auth_google]; [body] is [request.get_json(silent=True)], [None] when
    the request carries no JSON that parses. *)
Definition auth_google (flags : DevFlags) (body : option PyObj) (s : Session)
    : Outcome (Response * Session) :=
  let id_token :=
    match body with
    | Some p =>
        if truthy p then
          match as_dict p with
          | Some d => Returns (d "id_token")
          | None => RaisesAttributeError
          end
        else Returns None
    | None => Returns None
    end in
  match id_token with
  | RaisesAttributeError => RaisesAttributeError
  | Returns t =>
      if negb (from_option truthy false t) then
        Returns (JsonError 400 "missing id_token", s)
      else
        let allow_dev :=
          debug flags ||
          bool_decide (ALLOW_DEV_GOOGLE_UNVERIFIED flags = Some "1") in
        if allow_dev then
          Returns (JsonRedirect (UrlFor ep_index None),
                   <["user" := "google_user"]> s)
        else
          Returns (JsonError 501
            "server not configured to verify Google tokens. Implement verification or set ALLOW_DEV_GOOGLE_UNVERIFIED=1 for dev", s)
    end.

(** The requests that touch the session, and a run of them. *)
Inductive Visit : Type :=
| VisitLogin (r : Request)
| VisitLogout (r : Request)
| VisitIndex (r : Request)
| VisitAuthGoogle (body : option PyObj).

Definition visit (flags : DevFlags) (v : Visit) (s : Session) : Session :=
  match v with
  | VisitLogin r => snd (login r s)
  | VisitLogout r => snd (logout r s)
  | VisitIndex r => snd (index r s)
  | VisitAuthGoogle body =>
      match auth_google flags body s with
      | Returns (_, s') => s'
      | RaisesAttributeError => s
      end
  end.

Definition visits (flags : DevFlags) (vs : list Visit) (s : Session) : Session :=
  fold_left (fun s v => visit flags v s) vs s.
End Json.

(** A small value type for examples: text and dicts of text. *)
Inductive SampleJson : Type :=
| SampleText (t : string)
| SampleDict (items : list (string * string)).

Definition sample_truthy (v : SampleJson) : bool :=
  match v with
  | SampleText t => negb (String.eqb t "")
  | SampleDict items => negb (bool_decide (items = []))
  end.

Definition sample_as_dict (v : SampleJson) : option (string -> option SampleJson) :=
  match v with
  | SampleText _ => None
  | SampleDict items =>
      Some (fun k => SampleText <$> (list_to_map items : gmap string string) !! k)
  end.

(** Requests and bodies for examples. *)
Definition post_admin : Request :=
  {| method := POST; path := "/login";
     args := {["next" := "https://example.org/away"]};
     form := <["username" := "admin"]> {["password" := "admin"]} |}.

Definition get_home : Request :=
  {| method := GET; path := "/"; args := ∅; form := ∅ |}.

Definition flags_off : DevFlags :=
  {| debug := false; ALLOW_DEV_GOOGLE_UNVERIFIED := None |}.

Definition flags_env : DevFlags :=
  {| debug := false; ALLOW_DEV_GOOGLE_UNVERIFIED := Some "1" |}.

Definition body_token : option SampleJson :=
  Some (SampleDict [("id_token", "not-a-real-token")]).

(** ** The JSON views of the engine *)

(** The views run after the hook that starts the simulator, so they find
    one.  A reply is the JSON body with its status code. *)
Inductive ApiReply : Type :=
| ReplyJob (code : Z) (job : Job)
| ReplyError (code : Z) (error : string)
| ReplyStatus (is_running : bool) (jobs_count : Z) (sample_job : option Job).

(** [get_job_api]: a job dict is truthy, the empty dict is not. *)
Definition get_job_api (job_id : string) (w : World) : ApiReply :=
  match get_job (jobs (sim w)) job_id with
  | JobDict job => ReplyJob 200 job
  | EmptyDict => ReplyError 404 "Job not found"
  end.

Definition create_job_api (h : Host) (w : World) : Result ApiReply * World :=
  match create_job h true w with
  | (Ok job, w') => (Ok (ReplyJob 200 job), w')
  | (Raise e, w') => (Raise e, w')
  end.

(** [sim_status]: [jobs[-1]] of a non-empty list is its last entry. *)
Definition sim_status (w : World) : ApiReply :=
  ReplyStatus (running (sim w)) (Z.of_nat (length (jobs (sim w))))
              (last (jobs (sim w))).

(** * Properties *)

(** Case analysis on the test of the first conditional of the goal. *)
Ltac case_test :=
  match goal with
  | |- context [if ?b then _ else _] => destruct b eqn:?
  end.

(** ** Records *)

Lemma set_status_same (j : Job) : set_status (status j) j = j.
Proof. by destruct j. Qed.

Lemma same_but_status_refl (j : Job) : same_but_status j j.
Proof. unfold same_but_status. by rewrite set_status_same. Qed.

Lemma same_but_status_set (s : Status) (j : Job) : same_but_status j (set_status s j).
Proof. reflexivity. Qed.

Lemma same_but_status_trans (j1 j2 j3 : Job) :
  same_but_status j1 j2 -> same_but_status j2 j3 -> same_but_status j1 j3.
Proof. unfold same_but_status. intros -> ->. reflexivity. Qed.

Lemma same_but_status_id (j j' : Job) : same_but_status j j' -> id j' = id j.
Proof. by intros ->. Qed.

Lemma same_but_status_fields (j j' : Job) :
  same_but_status j j' ->
  id j' = id j /\ type j' = type j /\ created_at j' = created_at j /\
  estimated_runtime j' = estimated_runtime j /\
  success_probability j' = success_probability j /\ manual j' = manual j.
Proof. by intros ->. Qed.

(** ** The update loop *)

Lemma update_job_advanced (j : Job) (g : Rng) : advanced j (fst (update_job j g)).
Proof.
  unfold update_job, advanced.
  destruct (status j) eqn:Hs; simpl; auto;
    destruct (random g) as [x g1]; case_test; simpl; auto.
  - right. split; [constructor | reflexivity].
  - destruct (random g1) as [y g2]. case_test; simpl; right;
      (split; [constructor | reflexivity]).
Qed.

Lemma update_list_cons (j : Job) (l : list Job) (g : Rng) :
  fst (update_list (j :: l) g) =
  fst (update_job j g) :: fst (update_list l (snd (update_job j g))).
Proof.
  simpl. destruct (update_job j g) as [j' g1]. simpl.
  by destruct (update_list l g1).
Qed.

Lemma update_list_advanced (l : list Job) (g : Rng) :
  Forall2 advanced l (fst (update_list l g)).
Proof.
  revert g. induction l as [|j l IH]; intros g.
  - constructor.
  - rewrite update_list_cons. constructor; [apply update_job_advanced | apply IH].
Qed.

Lemma update_jobs_jobs (w : World) :
  jobs (sim (update_jobs w)) = fst (update_list (jobs (sim w)) (rng w)).
Proof. unfold update_jobs. by destruct (update_list _ _). Qed.

Lemma update_jobs_counter (w : World) :
  job_counter (sim (update_jobs w)) = job_counter (sim w).
Proof. unfold update_jobs. by destruct (update_list _ _). Qed.

Lemma update_jobs_max_jobs (w : World) :
  max_jobs (sim (update_jobs w)) = max_jobs (sim w).
Proof. unfold update_jobs. by destruct (update_list _ _). Qed.

Lemma update_jobs_running (w : World) :
  running (sim (update_jobs w)) = running (sim w).
Proof. unfold update_jobs. by destruct (update_list _ _). Qed.

Lemma update_jobs_advanced (w : World) :
  Forall2 advanced (jobs (sim w)) (jobs (sim (update_jobs w))).
Proof. rewrite update_jobs_jobs. apply update_list_advanced. Qed.

Lemma advanced_same_but_status (j j' : Job) : advanced j j' -> same_but_status j j'.
Proof. intros [-> | [_ H]]; [apply same_but_status_refl | exact H]. Qed.

Lemma advanced_terminal (j j' : Job) :
  advanced j j' -> terminal (status j) -> j' = j.
Proof.
  intros [-> | [Ht _]] Hterm; [reflexivity |].
  destruct Hterm as [H | H]; rewrite H in Ht; inversion Ht.
Qed.

Lemma advanced_to_terminal (j j' : Job) :
  advanced j j' -> terminal (status j') ->
  j' = j \/ (status j = RUNNING /\ same_but_status j j').
Proof.
  intros [-> | [Ht Hs]] Hterm; [by left |].
  right. split; [| exact Hs].
  destruct Hterm as [H | H]; rewrite H in Ht; by inversion Ht.
Qed.

(** ** Creation *)

Lemma tail_drop {A : Type} (l : list A) : tail l = drop 1 l.
Proof. by destruct l. Qed.

Lemma append_bounded_sublist (m : Z) (l : list Job) (j : Job) :
  append_bounded m l j `sublist_of` l ++ [j].
Proof.
  unfold append_bounded. case_test; [| reflexivity].
  rewrite tail_drop. apply sublist_drop.
Qed.

Lemma append_bounded_length (m : Z) (l : list Job) (j : Job) :
  0 <= m -> Z.of_nat (length l) <= m ->
  Z.of_nat (length (append_bounded m l j)) <= m.
Proof.
  intros Hm Hl. unfold append_bounded.
  destruct (Z.ltb_spec m (Z.of_nat (length (l ++ [j])))) as [H | H]; [| lia].
  rewrite tail_drop, length_drop, length_app. simpl. lia.
Qed.

(** What a call of [create_job] leaves behind, by outcome. *)
Lemma create_job_spec (h : Host) (m : bool) (w : World) :
  match create_job h m w with
  | (Ok j, w') =>
      (exists tz, now_zone h = Ok tz /\
                  created_at j = isoformat_now h tz (clock w)) /\
      id j = mk_id (job_counter (sim w)) /\ status j = QUEUED /\ manual j = m /\
      sim w' = {| jobs := append_bounded (max_jobs (sim w)) (jobs (sim w)) j;
                  job_counter := job_counter (sim w) + 1;
                  running := running (sim w);
                  max_jobs := max_jobs (sim w) |}
  | (Raise e, w') => now_zone h = Raise e /\ sim w' = sim w
  end.
Proof.
  unfold create_job, now_iso.
  destruct (choice _ _ _) as [ty g1].
  destruct (now_zone h) as [tz | e]; [| by split].
  destruct (randint _ _ _) as [rt g2]. destruct (uniform _ _ _) as [sp g3].
  simpl. split; [by exists tz | done].
Qed.

(** The four ways through one iteration of the simulation loop. *)
Lemma simulation_tick_cases (h : Host) (w : World) :
  (running (sim w) = false /\ simulation_tick h w = (Ok tt, w)) \/
  (exists g1, simulation_tick h w = (Ok tt, update_jobs (with_rng g1 w))) \/
  (exists g1 j w1, create_job h false (with_rng g1 w) = (Ok j, w1) /\
                   simulation_tick h w = (Ok tt, update_jobs w1)) \/
  (exists g1 e w1, create_job h false (with_rng g1 w) = (Raise e, w1) /\
                   simulation_tick h w = (Raise e, w1)).
Proof.
  unfold simulation_tick.
  destruct (running (sim w)); [| by left].
  right. destruct (random (rng w)) as [x g1].
  case_test; [| left; by exists g1].
  right. destruct (create_job h false (with_rng g1 w)) as [[j | e] w1] eqn:Hc.
  - left. by exists g1, j, w1.
  - right. by exists g1, e, w1.
Qed.

(** The jobs that [created_by] reports for an operation, by outcome of the
    same analysis. *)
Lemma created_by_tick_cases (h : Host) (w : World) :
  (created_by h SimulationTick w = [] /\
   (snd (simulation_tick h w) = w \/
    exists g1, snd (simulation_tick h w) = update_jobs (with_rng g1 w))) \/
  (exists g1 j w1, create_job h false (with_rng g1 w) = (Ok j, w1) /\
                   created_by h SimulationTick w = [j] /\
                   simulation_tick h w = (Ok tt, update_jobs w1)) \/
  (exists g1 e w1, create_job h false (with_rng g1 w) = (Raise e, w1) /\
                   created_by h SimulationTick w = [] /\
                   simulation_tick h w = (Raise e, w1)).
Proof.
  unfold simulation_tick, created_by.
  destruct (running (sim w)); [| left; split; [done | by left]].
  destruct (random (rng w)) as [x g1].
  case_test; [| left; split; [done | right; by exists g1]].
  right. destruct (create_job h false (with_rng g1 w)) as [[j | e] w1] eqn:Hc.
  - left. by exists g1, j, w1.
  - right. by exists g1, e, w1.
Qed.

Lemma Forall2_advanced_refl (l : list Job) : Forall2 advanced l l.
Proof. induction l; constructor; auto. by left. Qed.

(** The shape of every operation: the collection afterwards is a
    subsequence of the old collection followed by the new job, each entry
    advanced by at most one edge. *)
Lemma step_shape (h : Host) (op : Op) (w : World) :
  exists l, l `sublist_of` jobs (sim w) ++ created_by h op w /\
            Forall2 advanced l (jobs (sim (snd (step h op w)))).
Proof.
  destruct op as [m | | limit | | job_id |]; simpl.
  - pose proof (create_job_spec h m w) as Hc.
    destruct (create_job h m w) as [[j | e] w']; simpl in *.
    + destruct Hc as (_ & _ & _ & _ & ->). simpl.
      eexists. split; [apply append_bounded_sublist | apply Forall2_advanced_refl].
    + destruct Hc as [_ ->]. exists (jobs (sim w)).
      rewrite app_nil_r. split; [reflexivity | apply Forall2_advanced_refl].
  - exists (jobs (sim w)). rewrite app_nil_r.
    split; [reflexivity | apply update_jobs_advanced].
  - exists (jobs (sim w)). rewrite app_nil_r.
    split; [reflexivity | apply Forall2_advanced_refl].
  - exists (filter (fun j => status j <> COMPLETED) (jobs (sim w))).
    rewrite app_nil_r. split; [apply sublist_filter | apply Forall2_advanced_refl].
  - exists (jobs (sim w)). rewrite app_nil_r.
    split; [reflexivity | apply Forall2_advanced_refl].
  - change (if running (sim w) then _ else _) with (created_by h SimulationTick w).
    destruct (created_by_tick_cases h w)
      as [[Hcr [Hw | [g1 Hw]]] | [(g1 & j & w1 & Hc & Hcr & Ht) | (g1 & e & w1 & Hc & Hcr & Ht)]];
      rewrite Hcr.
    + destruct (simulation_tick h w) as [[u | e] w']; simpl in *; subst w';
        exists (jobs (sim w)); rewrite app_nil_r;
        (split; [reflexivity | apply Forall2_advanced_refl]).
    + destruct (simulation_tick h w) as [[u | e] w']; simpl in *; subst w';
        exists (jobs (sim w)); rewrite app_nil_r;
        (split; [reflexivity | apply (update_jobs_advanced (with_rng g1 w))]).
    + rewrite Ht. simpl. exists (jobs (sim w1)).
      split; [| apply update_jobs_advanced].
      pose proof (create_job_spec h false (with_rng g1 w)) as Hs.
      rewrite Hc in Hs. destruct Hs as (_ & _ & _ & _ & ->). simpl.
      apply append_bounded_sublist.
    + rewrite Ht. simpl. exists (jobs (sim w)). rewrite app_nil_r.
      pose proof (create_job_spec h false (with_rng g1 w)) as Hs.
      rewrite Hc in Hs. destruct Hs as [_ ->]. simpl.
      split; [reflexivity | apply Forall2_advanced_refl].
Qed.

(** Every job reported by [created_by] is queued and carries the id made
    from the counter, which the operation then moves past it. *)
Lemma created_by_spec (h : Host) (op : Op) (w : World) :
  Forall (fun j => status j = QUEUED /\ id j = mk_id (job_counter (sim w)))
         (created_by h op w) /\
  (length (created_by h op w) <= 1)%nat /\
  job_counter (sim (snd (step h op w))) =
    job_counter (sim w) + Z.of_nat (length (created_by h op w)) /\
  max_jobs (sim (snd (step h op w))) = max_jobs (sim w).
Proof.
  destruct op as [m | | limit | | job_id |]; simpl;
    try (rewrite ?update_jobs_counter, ?update_jobs_max_jobs;
         split_and!; [constructor | lia | lia | done]).
  - pose proof (create_job_spec h m w) as Hc.
    destruct (create_job h m w) as [[j | e] w']; simpl in *.
    + destruct Hc as (_ & Hid & Hst & _ & ->). simpl.
      split_and!; [by repeat constructor | lia | lia | done].
    + destruct Hc as [_ ->]. split_and!; [constructor | lia | lia | done].
  - change (if running (sim w) then _ else _) with (created_by h SimulationTick w).
    destruct (created_by_tick_cases h w)
      as [[Hcr [Hw | [g1 Hw]]] | [(g1 & j & w1 & Hc & Hcr & Ht) | (g1 & e & w1 & Hc & Hcr & Ht)]];
      rewrite Hcr; simpl.
    + destruct (simulation_tick h w) as [[u | e] w']; simpl in *; subst w';
        (split_and!; [constructor | lia | lia | done]).
    + destruct (simulation_tick h w) as [[u | e] w']; simpl in *; subst w';
        rewrite update_jobs_counter, update_jobs_max_jobs; simpl;
        (split_and!; [constructor | lia | lia | done]).
    + rewrite Ht. simpl. rewrite update_jobs_counter, update_jobs_max_jobs.
      pose proof (create_job_spec h false (with_rng g1 w)) as Hs.
      rewrite Hc in Hs. destruct Hs as (_ & Hid & Hst & _ & ->). simpl.
      split_and!; [by repeat constructor | lia | lia | done].
    + rewrite Ht. simpl.
      pose proof (create_job_spec h false (with_rng g1 w)) as Hs.
      rewrite Hc in Hs. destruct Hs as [_ ->]. simpl.
      split_and!; [constructor | lia | lia | done].
Qed.

(** ** Traces *)

Lemma exec_app (h : Host) (ops1 ops2 : list Op) (w : World) :
  exec h (ops1 ++ ops2) w = exec h ops2 (exec h ops1 w).
Proof. apply fold_left_app. Qed.

Lemma exec_snoc (h : Host) (ops : list Op) (op : Op) (w : World) :
  exec h (ops ++ [op]) w = snd (step h op (exec h ops w)).
Proof. by rewrite exec_app. Qed.

Lemma created_app (h : Host) (ops1 ops2 : list Op) (w : World) :
  created h (ops1 ++ ops2) w =
  created h ops1 w ++ created h ops2 (exec h ops1 w).
Proof.
  revert w. induction ops1 as [|op ops1 IH]; intros w; simpl; [done |].
  by rewrite IH, app_assoc.
Qed.

Lemma Forall2_elem_of_r {A B : Type} (P : A -> B -> Prop) (l : list A) (k : list B) (y : B) :
  Forall2 P l k -> y ∈ k -> exists x, x ∈ l /\ P x y.
Proof.
  intros HF Hy. apply list_elem_of_lookup_1 in Hy as [i Hi].
  destruct (Forall2_lookup_r _ _ _ _ _ HF Hi) as (x & Hx & HP).
  exists x. split; [by eapply list_elem_of_lookup_2 | done].
Qed.

(** A job found in a terminal state after an operation was in the
    collection before it, already in that state or running. *)
Lemma step_terminal_from (h : Host) (op : Op) (w : World) (j : Job) :
  j ∈ jobs (sim (snd (step h op w))) -> terminal (status j) ->
  exists j0, j0 ∈ jobs (sim w) /\
             (j = j0 \/ (status j0 = RUNNING /\ same_but_status j0 j)).
Proof.
  intros Hj Hterm.
  destruct (step_shape h op w) as (l & Hsub & HF).
  destruct (Forall2_elem_of_r _ _ _ _ HF Hj) as (j1 & Hj1 & Hadv).
  apply sublist_subseteq in Hsub. apply Hsub in Hj1.
  apply elem_of_app in Hj1 as [Hin | Hnew].
  - exists j1. split; [done |]. by apply advanced_to_terminal.
  - destruct (created_by_spec h op w) as (Hq & _).
    rewrite Forall_forall in Hq. destruct (Hq _ Hnew) as [Hst _].
    destruct (advanced_to_terminal _ _ Hadv Hterm) as [-> | [Hr _]].
    + destruct Hterm as [H | H]; congruence.
    + congruence.
Qed.

(** C1.  [update_jobs] leaves every COMPLETED or FAILED job as it is, and
    moves every other job by at most one edge of the chain
    QUEUED -> RUNNING -> COMPLETED | FAILED, touching no other field.  Hence,
    after any sequence of operations on a new simulator, a job found in a
    terminal state was RUNNING in the collection after some earlier part of
    that sequence. *)
Theorem update_jobs_follows_chain :
  (forall w : World,
     Forall2 (fun j j' => (terminal (status j) -> j' = j) /\ advanced j j')
             (jobs (sim w)) (jobs (sim (update_jobs w)))) /\
  (forall (h : Host) (m : Z) (g : Rng) (c : nat) (ops : list Op) (j : Job),
     j ∈ jobs (sim (exec h ops (boot m g c))) -> terminal (status j) ->
     exists ops1 ops2 j0,
       ops = ops1 ++ ops2 /\ j0 ∈ jobs (sim (exec h ops1 (boot m g c))) /\
       status j0 = RUNNING /\ same_but_status j0 j).
Proof.
  split.
  - intros w. eapply Forall2_impl; [apply update_jobs_advanced |].
    intros j j' Hadv. split; [by apply advanced_terminal | done].
  - intros h m g c ops. induction ops as [|op ops IH] using rev_ind; intros j Hj Hterm.
    + simpl in Hj. by apply elem_of_nil in Hj.
    + rewrite exec_snoc in Hj.
      destruct (step_terminal_from _ _ _ _ Hj Hterm) as (j0 & Hj0 & [-> | [Hrun Hsame]]).
      * destruct (IH _ Hj0 Hterm) as (ops1 & ops2 & j1 & -> & H1 & H2 & H3).
        exists ops1, (ops2 ++ [op]), j1. by rewrite app_assoc.
      * exists ops, [op], j0. done.
Qed.

Lemma update_jobs_follows_chain_witness :
  exists ops1 ops2 j0,
    ops0 = ops1 ++ ops2 /\ j0 ∈ jobs (sim (exec host0 ops1 (boot 3 rng0 0))) /\
    status j0 = RUNNING /\ same_but_status j0 done0.
Proof.
  apply (proj2 update_jobs_follows_chain host0 3 rng0 0%nat ops0 done0).
  - apply (list_elem_of_lookup_2 _ 1%nat). vm_compute. reflexivity.
  - left. vm_compute. reflexivity.
Defined.

(** ** The capacity bound *)

Lemma step_length_bound (h : Host) (op : Op) (w : World) :
  0 <= max_jobs (sim w) ->
  Z.of_nat (length (jobs (sim w))) <= max_jobs (sim w) ->
  Z.of_nat (length (jobs (sim (snd (step h op w))))) <= max_jobs (sim w).
Proof.
  intros Hm Hl.
  assert (Hupd : forall w' : World,
             length (jobs (sim (update_jobs w'))) = length (jobs (sim w'))).
  { intros w'. symmetry. eapply Forall2_length, update_jobs_advanced. }
  assert (Hcr : forall b w0 j w1,
             sim w0 = sim w -> create_job h b w0 = (Ok j, w1) ->
             Z.of_nat (length (jobs (sim w1))) <= max_jobs (sim w)).
  { intros b w0 j w1 Hw0 Hc. pose proof (create_job_spec h b w0) as Hs.
    rewrite Hc in Hs. destruct Hs as (_ & _ & _ & _ & ->). simpl.
    rewrite Hw0. by apply append_bounded_length. }
  destruct op as [b | | limit | | job_id |]; simpl; try done.
  - pose proof (create_job_spec h b w) as Hs.
    destruct (create_job h b w) as [[j | e] w1] eqn:Hc; simpl.
    + by eapply Hcr.
    + destruct Hs as [_ ->]. done.
  - by rewrite Hupd.
  - pose proof (length_filter (fun j => status j <> COMPLETED) (jobs (sim w))). lia.
  - destruct (simulation_tick_cases h w)
      as [[_ ->] | [[g1 ->] | [(g1 & j & w1 & Hc & ->) | (g1 & e & w1 & Hc & ->)]]];
      simpl; rewrite ?Hupd.
    + done.
    + done.
    + by apply (Hcr false (with_rng g1 w) j w1).
    + pose proof (create_job_spec h false (with_rng g1 w)) as Hs.
      rewrite Hc in Hs. destruct Hs as [_ ->]. done.
Qed.

Lemma exec_length_bound (h : Host) (ops : list Op) (w : World) :
  0 <= max_jobs (sim w) ->
  Z.of_nat (length (jobs (sim w))) <= max_jobs (sim w) ->
  max_jobs (sim (exec h ops w)) = max_jobs (sim w) /\
  Z.of_nat (length (jobs (sim (exec h ops w)))) <= max_jobs (sim w).
Proof.
  intros Hm Hl. induction ops as [|op ops [IHm IHl]] using rev_ind; [done |].
  rewrite exec_snoc.
  destruct (created_by_spec h op (exec h ops w)) as (_ & _ & _ & Hmax).
  split; [congruence |].
  rewrite <- IHm. apply step_length_bound; rewrite IHm; done.
Qed.

Lemma create_job_created_by (h : Host) (b : bool) (w : World) (j : Job) :
  created_by h (CreateJob b) w = [j] ->
  sim (snd (step h (CreateJob b) w)) =
    {| jobs := append_bounded (max_jobs (sim w)) (jobs (sim w)) j;
       job_counter := job_counter (sim w) + 1;
       running := running (sim w); max_jobs := max_jobs (sim w) |}.
Proof.
  simpl. pose proof (create_job_spec h b w) as Hs.
  destruct (create_job h b w) as [[j' | e] w1]; simpl; [| done].
  intros [= ->]. by destruct Hs as (_ & _ & _ & _ & ->).
Qed.

Lemma four_singletons {A : Type} (l1 l2 l3 l4 : list A) (x1 x2 x3 x4 : A) :
  (length l1 <= 1)%nat -> (length l2 <= 1)%nat ->
  (length l3 <= 1)%nat -> (length l4 <= 1)%nat ->
  l1 ++ l2 ++ l3 ++ l4 ++ [] = [x1; x2; x3; x4] ->
  l1 = [x1] /\ l2 = [x2] /\ l3 = [x3] /\ l4 = [x4].
Proof.
  destruct l1 as [|? [|? ?]], l2 as [|? [|? ?]], l3 as [|? [|? ?]], l4 as [|? [|? ?]];
    simpl; intros; try lia; try discriminate.
  by simplify_eq.
Qed.

(** C2.  After any sequence of operations on a new simulator with capacity
    [max_jobs >= 0] the collection holds at most [max_jobs] entries.
    [create_job] appends the new job and, when the collection was already
    full, drops exactly the entry at index 0.  Four creations with
    [max_jobs = 3] leave the second, third and fourth job, in that order. *)
Theorem collection_bounded_by_max_jobs :
  (forall (h : Host) (m : Z) (g : Rng) (c : nat) (ops : list Op),
     0 <= m ->
     Z.of_nat (length (jobs (sim (exec h ops (boot m g c))))) <= m) /\
  (forall (h : Host) (b : bool) (w : World) (j : Job) (w' : World),
     create_job h b w = (Ok j, w') ->
     (Z.of_nat (length (jobs (sim w))) < max_jobs (sim w) ->
      jobs (sim w') = jobs (sim w) ++ [j]) /\
     (max_jobs (sim w) <= Z.of_nat (length (jobs (sim w))) ->
      exists oldest, jobs (sim w) ++ [j] = oldest :: jobs (sim w'))) /\
  (forall (h : Host) (g : Rng) (c : nat) (b1 b2 b3 b4 : bool) (j1 j2 j3 j4 : Job),
     let ops := [CreateJob b1; CreateJob b2; CreateJob b3; CreateJob b4] in
     created h ops (boot 3 g c) = [j1; j2; j3; j4] ->
     jobs (sim (exec h ops (boot 3 g c))) = [j2; j3; j4]).
Proof.
  split_and!.
  - intros h m g c ops Hm.
    apply (exec_length_bound h ops (boot m g c)); simpl; lia.
  - intros h b w j w' Hc. pose proof (create_job_spec h b w) as Hs.
    rewrite Hc in Hs. destruct Hs as (_ & _ & _ & _ & ->). simpl.
    unfold append_bounded. rewrite length_app. simpl. split; intros H.
    + destruct (Z.ltb_spec (max_jobs (sim w)) (Z.of_nat (length (jobs (sim w)) + 1)));
        [lia | done].
    + destruct (Z.ltb_spec (max_jobs (sim w)) (Z.of_nat (length (jobs (sim w)) + 1)));
        [| lia].
      destruct (jobs (sim w)) as [|x l]; simpl; eauto.
  - intros h g c b1 b2 b3 b4 j1 j2 j3 j4 ops. subst ops.
    cbn [created]. unfold exec. cbn [fold_left].
    set (w0 := boot 3 g c).
    set (w1 := snd (step h (CreateJob b1) w0)).
    set (w2 := snd (step h (CreateJob b2) w1)).
    set (w3 := snd (step h (CreateJob b3) w2)).
    pose proof (created_by_spec h (CreateJob b1) w0) as (_ & H1 & _).
    pose proof (created_by_spec h (CreateJob b2) w1) as (_ & H2 & _).
    pose proof (created_by_spec h (CreateJob b3) w2) as (_ & H3 & _).
    pose proof (created_by_spec h (CreateJob b4) w3) as (_ & H4 & _).
    intros Hcr.
    destruct (four_singletons _ _ _ _ _ _ _ _ H1 H2 H3 H4 Hcr) as (E1 & E2 & E3 & E4).
    apply create_job_created_by in E1, E2, E3, E4.
    subst w3 w2 w1 w0. rewrite E4, E3, E2, E1. reflexivity.
Qed.

Lemma collection_bounded_by_max_jobs_witness :
  Z.of_nat (length (jobs (sim world0))) <= 3 /\
  jobs (sim (snd (create_job host0 true (boot 3 rng0 0)))) = [] ++ [first_job] /\
  jobs (sim (exec host0 four_creates (boot 3 rng0 0))) =
    [created0 1; created0 2; created0 3].
Proof.
  destruct collection_bounded_by_max_jobs as (Hbound & Hcreate & Hfour).
  split_and!.
  - apply (Hbound host0 3 rng0 0%nat ops0). lia.
  - apply (Hcreate host0 true (boot 3 rng0 0) first_job
             (snd (create_job host0 true (boot 3 rng0 0)))).
    + vm_compute. reflexivity.
    + simpl. lia.
  - apply (Hfour host0 rng0 0%nat true false true true (created0 0)).
    vm_compute. reflexivity.
Defined.

(** With a negative capacity every creation is undone at once: the
    collection stays empty, which is still more than the capacity. *)
Example negative_capacity :
  jobs (sim (exec host0 four_creates (boot (-1) rng0 0))) = [].
Proof. reflexivity. Qed.

(** ** Identifiers *)

Lemma to_int_not_nil (n : Z) : Z.to_int n <> Pos Nil /\ Z.to_int n <> Neg Nil.
Proof.
  destruct n as [|p|p]; simpl; split; try discriminate;
    intros [= H]; by apply (DecimalPos.Unsigned.to_uint_nonnil p).
Qed.

Lemma str_inj (a b : Z) : str a = str b -> a = b.
Proof.
  unfold str. intros H. apply DecimalZ.to_int_inj.
  destruct (to_int_not_nil a) as [Ha1 Ha2], (to_int_not_nil b) as [Hb1 Hb2].
  pose proof (NilZero.isi _ Ha1 Ha2) as Ea. pose proof (NilZero.isi _ Hb1 Hb2) as Eb.
  rewrite H in Ea. congruence.
Qed.

#[global] Instance mk_id_inj : Inj (=) (=) mk_id.
Proof. intros a b H. unfold mk_id in H. simpl in H. injection H. apply str_inj. Qed.

Lemma sublist_fmap_inv {A B : Type} (f : A -> B) (k : list B) (l : list A) :
  k `sublist_of` f <$> l -> exists l', k = f <$> l' /\ l' `sublist_of` l.
Proof.
  revert k. induction l as [|x l IH]; intros k Hk.
  - apply sublist_nil_r in Hk as ->. by exists [].
  - rewrite fmap_cons in Hk. apply sublist_cons_r in Hk as [Hk | (k' & -> & Hk)].
    + destruct (IH _ Hk) as (l' & -> & Hl'). exists l'. split; [done |].
      by apply sublist_cons_r; left.
    + destruct (IH _ Hk) as (l' & -> & Hl'). exists (x :: l'). split; [done |].
      by apply sublist_skip.
Qed.

Lemma sublist_StronglySorted {A : Type} (R : A -> A -> Prop) (k l : list A) :
  k `sublist_of` l -> StronglySorted R l -> StronglySorted R k.
Proof.
  induction 1 as [|x k l Hkl IH|x k l Hkl IH]; intros HS.
  - constructor.
  - apply StronglySorted_cons in HS as [Hx HS]. apply StronglySorted_cons.
    split; [| by apply IH].
    rewrite Forall_forall in *. intros y Hy. apply Hx.
    by apply (sublist_subseteq _ _ Hkl).
  - apply StronglySorted_cons in HS as [_ HS]. by apply IH.
Qed.

Lemma seqZ_StronglySorted (m n : Z) : StronglySorted Z.lt (seqZ m n).
Proof.
  destruct (Z.le_gt_cases n 0) as [Hn | Hn]; [rewrite seqZ_nil by done; constructor |].
  rewrite <- (Z2Nat.id n) by lia. generalize (Z.to_nat n) as k. clear n Hn.
  intros k. revert m. induction k as [|k IH]; intros m.
  - rewrite seqZ_nil by done. constructor.
  - rewrite seqZ_cons by lia. apply StronglySorted_cons. split.
    + apply Forall_seqZ. lia.
    + replace (Z.pred (Z.of_nat (S k))) with (Z.of_nat k) by lia. apply IH.
Qed.

Lemma Forall2_advanced_ids (l k : list Job) :
  Forall2 advanced l k -> id <$> k = id <$> l.
Proof.
  induction 1 as [|j j' l k Hadv _ IH]; [done |].
  rewrite !fmap_cons, IH. f_equal.
  by apply same_but_status_id, advanced_same_but_status.
Qed.

Lemma created_by_ids (h : Host) (op : Op) (w : World) :
  id <$> created_by h op w =
  mk_id <$> seqZ (job_counter (sim w)) (Z.of_nat (length (created_by h op w))).
Proof.
  destruct (created_by_spec h op w) as (Hq & Hlen & _).
  destruct (created_by h op w) as [|j [|j' l]]; simpl in *; [done | | lia].
  apply Forall_cons in Hq as [[_ ->] _]. done.
Qed.

(** The ids handed out and the ids in the collection, from any world whose
    collection carries the numbers [ns]. *)
Lemma exec_ids (h : Host) (ops : list Op) (w : World) (ns : list Z) :
  id <$> jobs (sim w) = mk_id <$> ns ->
  id <$> created h ops w =
    mk_id <$> seqZ (job_counter (sim w)) (Z.of_nat (length (created h ops w))) /\
  job_counter (sim (exec h ops w)) =
    job_counter (sim w) + Z.of_nat (length (created h ops w)) /\
  exists ns', id <$> jobs (sim (exec h ops w)) = mk_id <$> ns' /\
    ns' `sublist_of`
      ns ++ seqZ (job_counter (sim w)) (Z.of_nat (length (created h ops w))).
Proof.
  intros Hns. induction ops as [|op ops (IHc & IHn & ns1 & IHj & IHs)] using rev_ind.
  - simpl. rewrite seqZ_nil by done. split_and!; [done | lia |].
    exists ns. by rewrite app_nil_r.
  - rewrite exec_snoc, created_app. simpl created. rewrite app_nil_r.
    set (w1 := exec h ops w) in *. set (cs := created h ops w) in *.
    destruct (created_by_spec h op w1) as (_ & _ & Hcnt & _).
    pose proof (created_by_ids h op w1) as Hcb.
    rewrite length_app, Nat2Z.inj_add, seqZ_app by lia.
    rewrite <- IHn. split_and!.
    + by rewrite !fmap_app, IHc, Hcb.
    + lia.
    + destruct (step_shape h op w1) as (l & Hsub & HF).
      apply Forall2_advanced_ids in HF. rewrite HF.
      apply (fmap_sublist id) in Hsub.
      rewrite fmap_app, IHj, Hcb, <- fmap_app in Hsub.
      apply sublist_fmap_inv in Hsub as (ns2 & -> & Hns2).
      exists ns2. split; [done |]. etrans; [exact Hns2 |].
      rewrite app_assoc. by apply sublist_app.
Qed.

(** C5.  From a new simulator and for every sequence of operations (manual
    and automatic creations, updates, evictions, clears), the i-th job handed
    out by [create_job] has the id BQJ-i: the numbers increase by one each
    time, no id is assigned twice, the counter stays ahead of every id
    assigned, and the ids in the collection are a subsequence of the ids
    assigned, so their numbers increase along the collection. *)
Theorem ids_increase_with_creation (h : Host) (m : Z) (g : Rng) (c : nat) (ops : list Op) :
  id <$> created h ops (boot m g c) =
    mk_id <$> seqZ 1 (Z.of_nat (length (created h ops (boot m g c)))) /\
  NoDup (id <$> created h ops (boot m g c)) /\
  job_counter (sim (exec h ops (boot m g c))) =
    1 + Z.of_nat (length (created h ops (boot m g c))) /\
  exists ns : list Z,
    id <$> jobs (sim (exec h ops (boot m g c))) = mk_id <$> ns /\
    ns `sublist_of` seqZ 1 (Z.of_nat (length (created h ops (boot m g c)))) /\
    StronglySorted Z.lt ns.
Proof.
  destruct (exec_ids h ops (boot m g c) []) as (Hc & Hn & ns & Hj & Hs); [done |].
  simpl in *. split_and!; [done | | done |].
  - rewrite Hc. apply NoDup_fmap_2; [apply _ | apply NoDup_seqZ].
  - exists ns. split_and!; [done | done |].
    eapply sublist_StronglySorted; [exact Hs | apply seqZ_StronglySorted].
Qed.

(** ** Clearing *)

Lemma completed_count_occ (l : list Job) :
  length (filter (fun j => status j = COMPLETED) l) =
  count_occ Status_eq_dec (status <$> l) COMPLETED.
Proof.
  induction l as [|j l IH]; [done |].
  rewrite filter_cons, fmap_cons. simpl.
  destruct (decide (status j = COMPLETED)) as [He | Hne];
    destruct (Status_eq_dec (status j) COMPLETED); try done.
  simpl. by rewrite IH.
Qed.

Lemma filter_split_length (l : list Job) :
  (length (filter (fun j => status j <> COMPLETED) l) +
   length (filter (fun j => status j = COMPLETED) l))%nat = length l.
Proof.
  induction l as [|j l IH]; [done |].
  rewrite !filter_cons.
  destruct (decide (status j = COMPLETED)), (decide (status j <> COMPLETED));
    simpl; try done; lia.
Qed.

(** C6.  [clear_completed] keeps exactly the jobs whose status is not
    COMPLETED, in their previous relative order, and returns the number of
    COMPLETED jobs the collection held, which is the number of jobs it
    removed; the counter and the configuration are left alone. *)
Theorem clear_completed_removes_completed (s : Simulator) :
  (forall j : Job,
     j ∈ jobs (snd (clear_completed s)) <-> j ∈ jobs s /\ status j <> COMPLETED) /\
  jobs (snd (clear_completed s)) `sublist_of` jobs s /\
  fst (clear_completed s) =
    Z.of_nat (count_occ Status_eq_dec (status <$> jobs s) COMPLETED) /\
  Z.of_nat (length (jobs s)) =
    Z.of_nat (length (jobs (snd (clear_completed s)))) + fst (clear_completed s) /\
  job_counter (snd (clear_completed s)) = job_counter s /\
  max_jobs (snd (clear_completed s)) = max_jobs s /\
  running (snd (clear_completed s)) = running s.
Proof.
  unfold clear_completed. cbn [fst snd jobs job_counter max_jobs running].
  split_and!; try done.
  - intros j. rewrite list_elem_of_filter. tauto.
  - apply sublist_filter.
  - by rewrite completed_count_occ.
  - pose proof (filter_split_length (jobs s)). lia.
Qed.

(** ** Time zones *)

Lemma get_display_tz_cases (h : Host) :
  (exists s, config_DISPLAY_TZ h = Some s /\ s <> "" /\ get_display_tz h = s) \/
  ((config_DISPLAY_TZ h = None \/ config_DISPLAY_TZ h = Some "") /\
   ((exists s, environ_DISPLAY_TZ h = Some s /\ s <> "" /\ get_display_tz h = s) \/
    ((environ_DISPLAY_TZ h = None \/ environ_DISPLAY_TZ h = Some "") /\
     get_display_tz h = "UTC"))).
Proof.
  unfold get_display_tz, py_or.
  destruct (config_DISPLAY_TZ h) as [[|a s]|];
    [right; split; [by right |] | left; by exists (String a s)
    | right; split; [by left |]];
    (destruct (environ_DISPLAY_TZ h) as [[|a' s']|];
     [right; split; [by right | done] | left; by exists (String a' s')
     | right; split; [by left | done]]).
Qed.

Section HostWithUTC.
Context (h : Host) (utc : Zone) (Hutc : ZoneInfo h "UTC" = Some utc).

Lemma now_zone_total :
  exists tz, now_zone h = Ok tz /\
    (ZoneInfo h (get_display_tz h) = Some tz \/
     (ZoneInfo h (get_display_tz h) = None /\ tz = utc)).
Proof using Hutc.
  unfold now_zone. destruct (ZoneInfo h (get_display_tz h)) as [tz|].
  - exists tz. auto.
  - rewrite Hutc. exists utc. auto.
Qed.

Lemma create_job_total (b : bool) (w : World) :
  exists j, fst (create_job h b w) = Ok j.
Proof using Hutc.
  pose proof (create_job_spec h b w) as Hs.
  destruct (create_job h b w) as [[j | e] w']; [by exists j |].
  destruct Hs as [Hz _]. destruct now_zone_total as (tz & Htz & _). congruence.
Qed.

Lemma step_total (op : Op) (w : World) : exists v, fst (step h op w) = Ok v.
Proof using Hutc.
  destruct op as [b | | limit | | job_id |]; simpl; eauto.
  - destruct (create_job_total b w) as [j Hj].
    destruct (create_job h b w) as [[j' | e] w']; simpl in *; [eauto | done].
  - destruct (simulation_tick_cases h w)
      as [[_ ->] | [[g1 ->] | [(g1 & j & w1 & Hc & ->) | (g1 & e & w1 & Hc & ->)]]];
      simpl; eauto.
    destruct (create_job_total false (with_rng g1 w)) as [j Hj].
    rewrite Hc in Hj. done.
Qed.
End HostWithUTC.

(** ** Lookup *)

Lemma get_job_found (l : list Job) (job_id : string) (j : Job) :
  get_job l job_id = JobDict j <->
  exists l1 l2, l = l1 ++ j :: l2 /\ id j = job_id /\
                forall x, x ∈ l1 -> id x <> job_id.
Proof.
  induction l as [|x l IH]; simpl.
  - split; [done |]. intros (l1 & l2 & H & _). by destruct l1.
  - destruct (String.eqb_spec (id x) job_id) as [He | Hne].
    + split.
      * intros [= ->]. exists [], l. split_and!; [done | done |].
        intros y Hy. by apply elem_of_nil in Hy.
      * intros (l1 & l2 & H & Hid & Hl1). destruct l1 as [|y l1].
        -- by injection H as -> _.
        -- injection H as -> _. exfalso. apply (Hl1 y); [left | done].
    + rewrite IH. split.
      * intros (l1 & l2 & -> & Hid & Hl1). exists (x :: l1), l2.
        split_and!; [done | done |].
        intros y Hy. apply elem_of_cons in Hy as [-> | Hy]; auto.
      * intros (l1 & l2 & H & Hid & Hl1). destruct l1 as [|y l1].
        -- injection H as -> _. done.
        -- injection H as -> ->. exists l1, l2. split_and!; [done | done |].
           intros z Hz. apply Hl1. by right.
Qed.

Lemma get_job_not_found (l : list Job) (job_id : string) :
  get_job l job_id = EmptyDict <-> forall j, j ∈ l -> id j <> job_id.
Proof.
  induction l as [|x l IH]; simpl.
  - split; [| done]. intros _ j Hj. by apply elem_of_nil in Hj.
  - destruct (String.eqb_spec (id x) job_id) as [He | Hne].
    + split; [done |]. intros H. exfalso. apply (H x); [left | done].
    + rewrite IH. split.
      * intros H j Hj. apply elem_of_cons in Hj as [-> | Hj]; auto.
      * intros H j Hj. apply H. by right.
Qed.

Lemma get_job_unique (l : list Job) (j : Job) :
  NoDup (id <$> l) -> j ∈ l -> get_job l (id j) = JobDict j.
Proof.
  induction l as [|x l IH]; intros Hnd Hj; [by apply elem_of_nil in Hj |].
  rewrite fmap_cons in Hnd. apply NoDup_cons in Hnd as [Hx Hnd]. simpl.
  apply elem_of_cons in Hj as [-> | Hj]; [by rewrite String.eqb_refl |].
  destruct (String.eqb_spec (id x) (id j)) as [He | _]; [| by apply IH].
  exfalso. apply Hx. rewrite He. by apply list_elem_of_fmap_2.
Qed.

Lemma exec_ids_NoDup (h : Host) (m : Z) (g : Rng) (c : nat) (ops : list Op) :
  NoDup (id <$> jobs (sim (exec h ops (boot m g c)))).
Proof.
  destruct (exec_ids h ops (boot m g c) []) as (_ & _ & ns & -> & Hs); [done |].
  apply NoDup_fmap_2; [apply _ |].
  simpl in Hs. eapply sublist_NoDup; [apply NoDup_seqZ | exact Hs].
Qed.

Lemma now_zone_raise (h : Host) (e : Exn) :
  now_zone h = Raise e <->
  e = ZoneInfoNotFoundError /\
  ZoneInfo h (get_display_tz h) = None /\ ZoneInfo h "UTC" = None.
Proof.
  unfold now_zone.
  destruct (ZoneInfo h (get_display_tz h)) as [tz|];
    [split; [done | by intros (_ & ? & _)] |].
  destruct (ZoneInfo h "UTC") as [tz|]; [split; [done | by intros (_ & _ & ?)] |].
  split; [by intros [= <-] | by intros (-> & _)].
Qed.

(** An operation raises only while creating a job, with the exception of
    [now_iso], and leaves the simulator as it was. *)
Lemma step_raise (h : Host) (op : Op) (w : World) (e : Exn) :
  fst (step h op w) = Raise e ->
  (op = SimulationTick \/ exists b, op = CreateJob b) /\
  now_zone h = Raise e /\ sim (snd (step h op w)) = sim w.
Proof.
  destruct op as [b | | limit | | job_id |]; simpl; try done.
  - pose proof (create_job_spec h b w) as Hs.
    destruct (create_job h b w) as [[j | e'] w']; simpl; [done |].
    intros [= ->]. destruct Hs as [Hz Hsim]. split_and!; [right; by exists b | done | done].
  - destruct (simulation_tick_cases h w)
      as [[_ ->] | [[g1 ->] | [(g1 & j & w1 & Hc & ->) | (g1 & e' & w1 & Hc & ->)]]];
      simpl; try done.
    intros [= ->]. pose proof (create_job_spec h false (with_rng g1 w)) as Hs.
    rewrite Hc in Hs. destruct Hs as [Hz Hsim]. split_and!; [by left | done | done].
Qed.

(** C7.  [get_job] scans the collection from the front and returns the first
    job whose id matches; it returns the empty dict exactly when no job of
    the collection has that id.  In a collection reached from a new
    simulator ids are unique, so every job is the one found under its id.
    The empty dict is returned only by a lookup of an absent id.  That is
    not the only failure: an operation that creates a job raises
    ZoneInfoNotFoundError when the zone database of the host knows neither
    the configured zone name nor UTC, as on the host without zone data, where
    [create_job] raises. *)
Theorem get_job_first_match_or_empty :
  (forall (l : list Job) (job_id : string) (j : Job),
     get_job l job_id = JobDict j <->
     exists l1 l2, l = l1 ++ j :: l2 /\ id j = job_id /\
                   forall x, x ∈ l1 -> id x <> job_id) /\
  (forall (l : list Job) (job_id : string),
     get_job l job_id = EmptyDict <-> forall j, j ∈ l -> id j <> job_id) /\
  (forall (h : Host) (m : Z) (g : Rng) (c : nat) (ops : list Op) (j : Job),
     j ∈ jobs (sim (exec h ops (boot m g c))) ->
     get_job (jobs (sim (exec h ops (boot m g c)))) (id j) = JobDict j) /\
  (forall (h : Host) (op : Op) (w : World),
     (fst (step h op w) = Ok (VDict EmptyDict) <->
      exists job_id, op = GetJob job_id /\
                     forall j, j ∈ jobs (sim w) -> id j <> job_id) /\
     (forall e : Exn,
        fst (step h op w) = Raise e ->
        (op = SimulationTick \/ exists b, op = CreateJob b) /\
        e = ZoneInfoNotFoundError /\
        ZoneInfo h (get_display_tz h) = None /\ ZoneInfo h "UTC" = None)) /\
  (forall (b : bool) (w : World),
     fst (step host2 (CreateJob b) w) = Raise ZoneInfoNotFoundError).
Proof.
  split_and!; [apply get_job_found | apply get_job_not_found | | |].
  { intros h m g c ops j Hj. apply get_job_unique; [apply exec_ids_NoDup | done]. }
  { intros h op w. split.
    - destruct op as [b | | limit | | job_id |]; simpl.
      + split; [| by intros (? & ? & _)].
        destruct (create_job h b w) as [[j | e] w']; done.
      + split; [done | by intros (? & ? & _)].
      + split; [done | by intros (? & ? & _)].
      + split; [| by intros (? & ? & _)].
        destruct (clear_completed (sim w)). done.
      + split.
        * intros [= H]. exists job_id. split; [done |]. by apply get_job_not_found.
        * intros (jid & [= <-] & H). apply get_job_not_found in H. by rewrite H.
      + split; [| by intros (? & ? & _)].
        destruct (simulation_tick h w) as [[u | e] w']; done.
    - intros e He. destruct (step_raise _ _ _ _ He) as (Hop & Hz & _).
      apply now_zone_raise in Hz as (-> & ? & ?). done. }
  intros b w. simpl. pose proof (create_job_spec host2 b w) as Hs.
  destruct (create_job host2 b w) as [[j | e] w']; simpl.
  - by destruct Hs as ((tz & Htz & _) & _).
  - destruct Hs as [Hz _]. apply now_zone_raise in Hz as (-> & _). done.
Qed.

Lemma get_job_first_match_or_empty_witness :
  get_job (jobs (sim world0)) "BQJ-3" = JobDict done0 /\
  (get_job (jobs (sim world0)) "BQJ-1" = EmptyDict) /\
  get_job (jobs (sim world0)) (id done0) = JobDict done0 /\
  ZoneInfo host2 "UTC" = None.
Proof.
  destruct get_job_first_match_or_empty as (Hfound & Hnone & Hunique & Hfail & _).
  split_and!.
  - apply Hfound. exists [nth 0 (jobs (sim world0)) job0], [nth 2 (jobs (sim world0)) job0].
    split_and!; [vm_compute; reflexivity | vm_compute; reflexivity |].
    intros x Hx. apply list_elem_of_singleton in Hx as ->. vm_compute. discriminate.
  - apply Hnone. intros j Hj.
    change (jobs (sim world0)) with
      [nth 0 (jobs (sim world0)) job0; nth 1 (jobs (sim world0)) job0;
       nth 2 (jobs (sim world0)) job0] in Hj.
    repeat (apply elem_of_cons in Hj as [-> | Hj]; [vm_compute; discriminate |]).
    by apply elem_of_nil in Hj.
  - apply (Hunique host0 3 rng0 0%nat ops0 done0).
    apply (list_elem_of_lookup_2 _ 1%nat). vm_compute. reflexivity.
  - apply (proj2 (Hfail host2 (CreateJob true) world0) ZoneInfoNotFoundError).
    vm_compute. reflexivity.
Defined.

(** ** Frame *)

Lemma Forall2_advanced_same (l k : list Job) :
  Forall2 advanced l k -> Forall2 same_but_status l k.
Proof. intros H. eapply Forall2_impl; [exact H | apply advanced_same_but_status]. Qed.

(** An operation that neither creates a job nor clears keeps every entry in
    its place. *)
Lemma step_keeps_entries (h : Host) (op : Op) (w : World) :
  op <> ClearCompleted -> created_by h op w = [] ->
  Forall2 advanced (jobs (sim w)) (jobs (sim (snd (step h op w)))).
Proof.
  intros Hop Hcr. destruct op as [b | | limit | | job_id |]; try done.
  - simpl in *. pose proof (create_job_spec h b w) as Hs.
    destruct (create_job h b w) as [[j | e] w']; simpl in *; [done |].
    destruct Hs as [_ ->]. apply Forall2_advanced_refl.
  - apply update_jobs_advanced.
  - apply Forall2_advanced_refl.
  - apply Forall2_advanced_refl.
  - cbn [step].
    destruct (created_by_tick_cases h w)
      as [[_ [Hw | [g1 Hw]]] | [(g1 & j & w1 & Hc & Hcr' & Ht) | (g1 & e & w1 & Hc & _ & Ht)]].
    + destruct (simulation_tick h w) as [[u | e] w']; simpl in *; subst w';
        apply Forall2_advanced_refl.
    + destruct (simulation_tick h w) as [[u | e] w']; simpl in *; subst w';
        apply (update_jobs_advanced (with_rng g1 w)).
    + congruence.
    + rewrite Ht. simpl. pose proof (create_job_spec h false (with_rng g1 w)) as Hs.
      rewrite Hc in Hs. destruct Hs as [_ ->]. apply Forall2_advanced_refl.
Qed.

Lemma step_job_origin (h : Host) (op : Op) (w : World) (j' : Job) :
  j' ∈ jobs (sim (snd (step h op w))) ->
  exists j, (j ∈ jobs (sim w) \/ j ∈ created_by h op w) /\ same_but_status j j'.
Proof.
  intros Hj'. destruct (step_shape h op w) as (l & Hsub & HF).
  destruct (Forall2_elem_of_r _ _ _ _ HF Hj') as (j & Hj & Hadv).
  exists j. split; [| by apply advanced_same_but_status].
  apply elem_of_app. by apply (sublist_subseteq _ _ Hsub).
Qed.

Lemma exec_job_origin (h : Host) (ops : list Op) (w : World) (j' : Job) :
  j' ∈ jobs (sim (exec h ops w)) ->
  exists j, (j ∈ jobs (sim w) \/ j ∈ created h ops w) /\ same_but_status j j'.
Proof.
  revert j'. induction ops as [|op ops IH] using rev_ind; intros j' Hj'.
  - exists j'. split; [by left | apply same_but_status_refl].
  - rewrite exec_snoc in Hj'. rewrite created_app. simpl created. rewrite app_nil_r.
    destruct (step_job_origin _ _ _ _ Hj') as (j1 & [Hold | Hnew] & Hs1).
    + destruct (IH _ Hold) as (j0 & Hj0 & Hs0). exists j0. split.
      * destruct Hj0 as [? | ?]; [by left | right; apply elem_of_app; by left].
      * by eapply same_but_status_trans.
    + exists j1. split; [| done]. right. apply elem_of_app. by right.
Qed.

(** C8.  [get_jobs] and [get_job] leave the whole simulator as it was.
    [update_jobs] keeps every entry at its index and rewrites at most its
    status; counter and configuration stay.  Every job found in the
    collection after an operation is a job of the collection before it, or
    the job that operation created, with no field other than the status
    changed; so a job of the collection always carries the id, type,
    created_at, estimated_runtime, success_probability and manual it was
    created with.  An operation that is not [clear_completed] and creates no
    job removes no entry. *)
Theorem operations_frame :
  (forall (h : Host) (w : World) (limit : Z) (job_id : string),
     snd (step h (GetJobs limit) w) = w /\ snd (step h (GetJob job_id) w) = w) /\
  (forall w : World,
     Forall2 same_but_status (jobs (sim w)) (jobs (sim (update_jobs w))) /\
     job_counter (sim (update_jobs w)) = job_counter (sim w) /\
     max_jobs (sim (update_jobs w)) = max_jobs (sim w) /\
     running (sim (update_jobs w)) = running (sim w)) /\
  (forall (h : Host) (op : Op) (w : World) (j' : Job),
     j' ∈ jobs (sim (snd (step h op w))) ->
     exists j, (j ∈ jobs (sim w) \/ j ∈ created_by h op w) /\
               same_but_status j j') /\
  (forall (h : Host) (m : Z) (g : Rng) (c : nat) (ops : list Op) (j' : Job),
     j' ∈ jobs (sim (exec h ops (boot m g c))) ->
     exists j, j ∈ created h ops (boot m g c) /\
               id j' = id j /\ type j' = type j /\ created_at j' = created_at j /\
               estimated_runtime j' = estimated_runtime j /\
               success_probability j' = success_probability j /\
               manual j' = manual j) /\
  (forall (h : Host) (op : Op) (w : World),
     op <> ClearCompleted -> created_by h op w = [] ->
     Forall2 same_but_status (jobs (sim w)) (jobs (sim (snd (step h op w))))).
Proof.
  split_and!.
  - intros h w limit job_id. by split.
  - intros w. split_and!.
    + apply Forall2_advanced_same, update_jobs_advanced.
    + apply update_jobs_counter.
    + apply update_jobs_max_jobs.
    + apply update_jobs_running.
  - apply step_job_origin.
  - intros h m g c ops j' Hj'.
    destruct (exec_job_origin _ _ _ _ Hj') as (j & [Hj | Hj] & Hs).
    + simpl in Hj. by apply elem_of_nil in Hj.
    + exists j. split; [done |]. by apply same_but_status_fields.
  - intros h op w Hop Hcr. by apply Forall2_advanced_same, step_keeps_entries.
Qed.

Lemma operations_frame_witness :
  (exists j, j ∈ created host0 ops0 (boot 3 rng0 0) /\
             id done0 = id j /\ type done0 = type j /\
             created_at done0 = created_at j /\
             estimated_runtime done0 = estimated_runtime j /\
             success_probability done0 = success_probability j /\
             manual done0 = manual j) /\
  Forall2 same_but_status (jobs (sim world0))
          (jobs (sim (snd (step host0 UpdateJobs world0)))).
Proof.
  destruct operations_frame as (_ & _ & _ & Horigin & Hkeep).
  split.
  - apply (Horigin host0 3 rng0 0%nat ops0 done0).
    apply (list_elem_of_lookup_2 _ 1%nat). vm_compute. reflexivity.
  - apply (Hkeep host0 UpdateJobs world0); [discriminate | reflexivity].
Defined.

(** The zone name is the first non-empty one of the app configuration and
    the environment, and UTC when both are missing.  On a host whose zone
    database knows UTC, [now_iso] never raises: it formats the time in the
    zone of that name when the name is valid and in UTC when it is not, and
    [create_job] returns a job whatever the configuration is. *)
Theorem now_iso_falls_back_to_utc (h : Host) (utc : Zone) :
  ZoneInfo h "UTC" = Some utc ->
  ((exists s, config_DISPLAY_TZ h = Some s /\ s <> "" /\ get_display_tz h = s) \/
   ((config_DISPLAY_TZ h = None \/ config_DISPLAY_TZ h = Some "") /\
    ((exists s, environ_DISPLAY_TZ h = Some s /\ s <> "" /\ get_display_tz h = s) \/
     ((environ_DISPLAY_TZ h = None \/ environ_DISPLAY_TZ h = Some "") /\
      get_display_tz h = "UTC")))) /\
  (forall clock : nat,
     exists tz, now_iso h clock = (Ok (isoformat_now h tz clock), S clock) /\
       (ZoneInfo h (get_display_tz h) = Some tz \/
        (ZoneInfo h (get_display_tz h) = None /\ tz = utc))) /\
  (forall (b : bool) (w : World),
     exists j w', create_job h b w = (Ok j, w') /\ manual j = b /\
                  status j = QUEUED).
Proof.
  intros Hutc. split_and!.
  - apply get_display_tz_cases.
  - intros clock. destruct (now_zone_total h utc Hutc) as (tz & Htz & Hcase).
    exists tz. unfold now_iso. by rewrite Htz.
  - intros b w. destruct (create_job_total h utc Hutc b w) as [j Hj].
    pose proof (create_job_spec h b w) as Hs.
    destruct (create_job h b w) as [[j' | e] w']; simpl in Hj; [| done].
    exists j', w'. by destruct Hs as (_ & _ & ? & ? & _).
Qed.

Lemma now_iso_falls_back_to_utc_witness :
  (exists tz, now_iso host1 7 = (Ok (isoformat_now host1 tz 7), 8%nat) /\
     (ZoneInfo host1 (get_display_tz host1) = Some tz \/
      (ZoneInfo host1 (get_display_tz host1) = None /\ tz = mkZone "UTC" 0))) /\
  (exists tz, now_iso host0 7 = (Ok (isoformat_now host0 tz 7), 8%nat) /\
     (ZoneInfo host0 (get_display_tz host0) = Some tz \/
      (ZoneInfo host0 (get_display_tz host0) = None /\ tz = mkZone "UTC" 0))).
Proof.
  split.
  - apply (now_iso_falls_back_to_utc host1 (mkZone "UTC" 0)). reflexivity.
  - apply (now_iso_falls_back_to_utc host0 (mkZone "UTC" 0)). reflexivity.
Defined.

Example now_iso_invalid_name : now_iso host1 7 = (Ok "UTC@7", 8%nat).
Proof. reflexivity. Qed.

Example now_iso_valid_name : now_iso host0 7 = (Ok "Asia/Kolkata@7", 8%nat).
Proof. reflexivity. Qed.

(** C9.  [now_iso] does not always fall back to UTC: its handler looks UTC
    up in the same zone database, and where that lookup fails too the
    exception leaves [now_iso] and [create_job], which then leaves the
    simulator as it was.  This happens exactly when the database knows
    neither the configured name nor UTC, as on a host without zone data,
    whatever the configured name is. *)
Theorem now_iso_raises_without_utc :
  (forall (h : Host) (clock : nat),
     fst (now_iso h clock) = Raise ZoneInfoNotFoundError <->
     ZoneInfo h (get_display_tz h) = None /\ ZoneInfo h "UTC" = None) /\
  (forall (h : Host) (b : bool) (w : World),
     fst (create_job h b w) = Raise ZoneInfoNotFoundError <->
     ZoneInfo h (get_display_tz h) = None /\ ZoneInfo h "UTC" = None) /\
  get_display_tz host2 = "Asia/Kolkata" /\
  (forall clock : nat, now_iso host2 clock = (Raise ZoneInfoNotFoundError, clock)) /\
  (forall (b : bool) (w : World),
     fst (create_job host2 b w) = Raise ZoneInfoNotFoundError /\
     sim (snd (create_job host2 b w)) = sim w).
Proof.
  assert (Hnow : forall (h : Host) (clock : nat),
             fst (now_iso h clock) = Raise ZoneInfoNotFoundError <->
             ZoneInfo h (get_display_tz h) = None /\ ZoneInfo h "UTC" = None).
  { intros h clock. unfold now_iso.
    pose proof (now_zone_raise h ZoneInfoNotFoundError) as Hz.
    destruct (now_zone h) as [tz | e] eqn:E; simpl.
    - split; [done |]. intros H. pose proof (proj2 Hz (conj eq_refl H)). done.
    - split.
      + intros [= ->]. by apply Hz.
      + intros _. by apply (now_zone_raise h e) in E as (-> & _). }
  assert (Hcreate : forall (h : Host) (b : bool) (w : World),
             fst (create_job h b w) = Raise ZoneInfoNotFoundError <->
             ZoneInfo h (get_display_tz h) = None /\ ZoneInfo h "UTC" = None).
  { intros h b w. pose proof (create_job_spec h b w) as Hs.
    destruct (create_job h b w) as [[j | e] w']; simpl.
    - destruct Hs as ((tz & Htz & _) & _). split; [done |].
      intros H. assert (now_zone h = Raise ZoneInfoNotFoundError)
        by (by apply now_zone_raise). congruence.
    - destruct Hs as [Hz _]. apply now_zone_raise in Hz as (-> & ? & ?). by split. }
  split_and!; [done | done | done | |].
  - intros clock. reflexivity.
  - intros b w. split; [by apply Hcreate |].
    pose proof (create_job_spec host2 b w) as Hs.
    destruct (create_job host2 b w) as [[j | e] w']; simpl.
    + by destruct Hs as ((tz & Htz & _) & _).
    + by destruct Hs as [_ ?].
Qed.

(** ** Sorting *)

Section SortedFacts.
Context {A K : Type} (lt : K -> K -> bool) (sort_by : A -> K).
Hypothesis lt_asym : forall a b, lt a b = true -> lt b a = false.
Hypothesis lt_cotrans : forall a b c, lt a c = true -> lt a b = true \/ lt b c = true.

(** [y] may stay in front of [x]. *)
Let le (x y : A) : Prop := lt (sort_by y) (sort_by x) = false.

Lemma insert_stable_Permutation (x : A) (l : list A) :
  insert_stable lt sort_by x l ≡ₚ x :: l.
Proof using Type.
  induction l as [|y l IH]; simpl; [done |].
  case_test; [| done]. rewrite IH. apply Permutation_swap.
Qed.

Lemma sorted_Permutation (l : list A) : sorted lt sort_by l ≡ₚ l.
Proof using Type.
  induction l as [|x l IH]; simpl; [done |].
  by rewrite insert_stable_Permutation, IH.
Qed.

Lemma sorted_length (l : list A) : length (sorted lt sort_by l) = length l.
Proof using Type. by rewrite sorted_Permutation. Qed.

Lemma le_trans_head (x y z : A) : le x y -> le y z -> le x z.
Proof using lt_cotrans.
  unfold le. intros Hxy Hyz.
  destruct (lt (sort_by z) (sort_by x)) eqn:Hzx; [| done].
  destruct (lt_cotrans _ (sort_by y) _ Hzx); congruence.
Qed.

Lemma insert_stable_sorted (x : A) (l : list A) :
  StronglySorted le l -> StronglySorted le (insert_stable lt sort_by x l).
Proof using lt_asym lt_cotrans.
  induction l as [|y l IH]; intros HS; simpl.
  - repeat constructor.
  - apply StronglySorted_cons in HS as [Hy HS].
    destruct (lt (sort_by y) (sort_by x)) eqn:Hyx.
    + apply StronglySorted_cons. split; [| by apply IH].
      rewrite insert_stable_Permutation. constructor; [| done].
      by apply lt_asym.
    + apply StronglySorted_cons. split.
      * constructor; [done |]. eapply Forall_impl; [exact Hy |].
        intros z Hz. by apply (le_trans_head x y z).
      * by apply StronglySorted_cons.
Qed.

Lemma sorted_StronglySorted (l : list A) : StronglySorted le (sorted lt sort_by l).
Proof using lt_asym lt_cotrans.
  induction l as [|x l IH]; simpl; [constructor | by apply insert_stable_sorted].
Qed.

(** Stability: entries that compare equal keep their input order. *)
Lemma insert_stable_filter (P : A -> Prop) `{!forall a, Decision (P a)} (x : A) (l : list A) :
  (forall y, P y -> lt (sort_by y) (sort_by x) = false) ->
  filter P (insert_stable lt sort_by x l) = filter P (x :: l).
Proof using Type.
  intros HP. induction l as [|y l IH]; simpl; [done |].
  case_test; [| done].
  rewrite filter_cons, IH, !(filter_cons _ x), (filter_cons _ y).
  destruct (decide (P y)) as [Hy | Hy]; [| done].
  apply HP in Hy. congruence.
Qed.

Lemma sorted_stable (k : A) (l : list A) `{!forall a, Decision (sort_by a = sort_by k)} :
  filter (fun a => sort_by a = sort_by k) (sorted lt sort_by l) =
  filter (fun a => sort_by a = sort_by k) l.
Proof using lt_asym.
  induction l as [|x l IH]; simpl; [done |].
  destruct (decide (sort_by x = sort_by k)) as [Hx | Hx].
  - rewrite insert_stable_filter, !filter_cons, IH; [done |].
    intros y Hy. rewrite Hy, Hx.
    destruct (lt (sort_by k) (sort_by k)) eqn:E; [| done].
    by rewrite (lt_asym _ _ E) in E.
  - assert (Hins : forall l', filter (fun a => sort_by a = sort_by k)
                                (insert_stable lt sort_by x l') =
                              filter (fun a => sort_by a = sort_by k) l').
    { induction l' as [|y l' IH']; simpl.
      - by rewrite filter_cons_False.
      - case_test.
        + by rewrite !(filter_cons _ y), IH'.
        + by rewrite (filter_cons_False _ x). }
    by rewrite Hins, filter_cons_False, IH.
Qed.
End SortedFacts.

Lemma string_ltb_asym (a b : string) : String.ltb a b = true -> String.ltb b a = false.
Proof.
  unfold String.ltb. rewrite (String.compare_antisym b a).
  by destruct (String.compare a b).
Qed.

Lemma string_ltb_cotrans (a b c : string) :
  String.ltb a c = true -> String.ltb a b = true \/ String.ltb b c = true.
Proof.
  unfold String.ltb. intros Hac.
  destruct (String.compare a b) eqn:Hab; [| by left |].
  - apply String.compare_eq_iff in Hab as ->. by right.
  - right. rewrite String.compare_antisym in Hab.
    destruct (String.compare b a) eqn:Hba; try done.
    destruct (String.compare a c) eqn:Hac'; try done.
    apply String_as_OT.cmp_lt in Hba, Hac'.
    pose proof (String_as_OT.lt_trans _ _ _ Hba Hac') as Hbc.
    apply String_as_OT.cmp_lt in Hbc. unfold String_as_OT.cmp in Hbc. by rewrite Hbc.
Qed.

Lemma tuple_lt_asym (a b : Z * string) : tuple_lt a b = true -> tuple_lt b a = false.
Proof.
  unfold tuple_lt. destruct a as [x s], b as [y t]. simpl.
  destruct (Z.eqb_spec x y) as [-> | Hne].
  - rewrite Z.eqb_refl. apply string_ltb_asym.
  - destruct (Z.eqb_spec y x) as [-> | _]; [done |].
    rewrite !Z.ltb_lt, Z.ltb_ge. lia.
Qed.

Lemma tuple_lt_cotrans (a b c : Z * string) :
  tuple_lt a c = true -> tuple_lt a b = true \/ tuple_lt b c = true.
Proof.
  unfold tuple_lt. destruct a as [x s], b as [y t], c as [z u]. simpl.
  destruct (Z.eqb_spec x z) as [-> | Hxz].
  - intros Hsu. destruct (Z.eqb_spec z y) as [-> | Hzy].
    + rewrite Z.eqb_refl. by apply string_ltb_cotrans.
    + destruct (Z.eqb_spec y z) as [-> | _]; [done |].
      rewrite !Z.ltb_lt. lia.
  - rewrite Z.ltb_lt. intros Hlt.
    destruct (Z.eqb_spec x y) as [-> | Hxy].
    + right. destruct (Z.eqb_spec y z); [done |]. by apply Z.ltb_lt.
    + destruct (Z.eqb_spec y z) as [-> | Hyz].
      * left. by apply Z.ltb_lt.
      * rewrite !Z.ltb_lt. lia.
Qed.

Lemma sorted_jobs_Permutation (l : list Job) : sorted tuple_lt sort_key l ≡ₚ l.
Proof. apply sorted_Permutation. Qed.

Lemma sorted_jobs_ordered (l : list Job) :
  StronglySorted key_le (sorted tuple_lt sort_key l).
Proof. apply sorted_StronglySorted; [apply tuple_lt_asym | apply tuple_lt_cotrans]. Qed.

(** What [key_le] says in the words of the source: a lower status priority
    first and, within one priority, a [created_at] that is not greater. *)
Lemma key_le_spec (j1 j2 : Job) :
  key_le j1 j2 <->
  status_order (status j1) < status_order (status j2) \/
  (status_order (status j1) = status_order (status j2) /\
   String.leb (created_at j1) (created_at j2) = true).
Proof.
  unfold key_le, tuple_lt, sort_key. simpl.
  destruct (Z.eqb_spec (status_order (status j2)) (status_order (status j1))) as [He | Hne].
  - rewrite He. unfold String.ltb, String.leb.
    rewrite (String.compare_antisym (created_at j2) (created_at j1)).
    destruct (String.compare (created_at j1) (created_at j2)); simpl;
      (split; [intros ?; first [done | by right]
              | intros [? | [_ ?]]; first [done | lia]]).
  - rewrite Z.ltb_ge. lia.
Qed.

(** ** Slicing and listing *)

Lemma slice_from_nonneg {A : Type} (l : list A) (start : Z) :
  0 <= start -> slice_from l start = drop (Z.to_nat start) l.
Proof.
  intros Hs. unfold slice_from.
  destruct (Z.ltb_spec start 0) as [? | _]; [lia |].
  destruct (Z.le_gt_cases start (Z.of_nat (length l))) as [Hle | Hgt].
  - by rewrite Z.min_l.
  - rewrite Z.min_r by lia. rewrite Nat2Z.id, !drop_ge; [done | lia | lia].
Qed.

Lemma slice_from_neg {A : Type} (l : list A) (start : Z) :
  start < 0 -> slice_from l start = drop (length l - Z.to_nat (- start)) l.
Proof.
  intros Hs. unfold slice_from.
  destruct (Z.ltb_spec start 0) as [_ | ?]; [| lia].
  f_equal. lia.
Qed.

Lemma get_jobs_zero (l : list Job) : get_jobs l 0 = sorted tuple_lt sort_key l.
Proof. unfold get_jobs. by rewrite slice_from_nonneg. Qed.

Lemma get_jobs_negative (l : list Job) (limit : Z) :
  limit < 0 ->
  get_jobs l limit = drop (Z.to_nat (- limit)) (sorted tuple_lt sort_key l).
Proof. intros H. unfold get_jobs. rewrite slice_from_nonneg by lia. done. Qed.

(** For a limit of at least one the slice is the suffix of that length. *)
Lemma get_jobs_positive (l : list Job) (limit : Z) :
  1 <= limit ->
  get_jobs l limit = last_entries limit (sorted tuple_lt sort_key l) /\
  length (get_jobs l limit) = Nat.min (Z.to_nat limit) (length l) /\
  exists front, sorted tuple_lt sort_key l = front ++ get_jobs l limit.
Proof.
  intros H. unfold get_jobs, last_entries.
  rewrite slice_from_neg by lia. rewrite Z.opp_involutive.
  split_and!; [done | |].
  - rewrite length_drop, sorted_length. lia.
  - exists (take (length (sorted tuple_lt sort_key l) - Z.to_nat limit)
                 (sorted tuple_lt sort_key l)).
    by rewrite take_drop.
Qed.

Lemma get_jobs_api_passes_limit (int : string -> Result Z) (s : string) (limit : Z) (w : World) :
  int s = Ok limit ->
  get_jobs_api int (Some s) w = Ok (get_jobs (jobs (sim w)) limit).
Proof. intros H. unfold get_jobs_api. by rewrite H. Qed.

Lemma StronglySorted_weaken {A : Type} (R1 R2 : A -> A -> Prop) (l : list A) :
  (forall x y, R1 x y -> R2 x y) -> StronglySorted R1 l -> StronglySorted R2 l.
Proof.
  intros HR. induction 1 as [|x l _ IH Hx]; constructor; [done |].
  eapply Forall_impl; [exact Hx | auto].
Qed.

(** C10.  With [limit = 0] the slice [sorted_jobs[-limit:]] is the whole
    sorted collection: [get_jobs] returns every job, each job before every
    job of a greater status priority number and, at the same number, before
    every job whose [created_at] is not smaller.  With a negative limit it
    returns the sorted collection without its first [-limit] entries.
    [get_jobs_api] hands the integer that [int] reads from the [limit] query
    parameter to [get_jobs] as it is, whatever its sign. *)
Theorem get_jobs_nonpositive_limit :
  (forall l : list Job,
     get_jobs l 0 = sorted tuple_lt sort_key l /\
     get_jobs l 0 ≡ₚ l /\
     StronglySorted
       (fun j1 j2 =>
          status_order (status j1) < status_order (status j2) \/
          (status_order (status j1) = status_order (status j2) /\
           String.leb (created_at j1) (created_at j2) = true))
       (get_jobs l 0)) /\
  (forall (l : list Job) (limit : Z),
     limit < 0 ->
     get_jobs l limit = drop (Z.to_nat (- limit)) (sorted tuple_lt sort_key l)) /\
  (forall (int : string -> Result Z) (w : World) (s : string) (limit : Z),
     int s = Ok limit ->
     get_jobs_api int (Some s) w = Ok (get_jobs (jobs (sim w)) limit)).
Proof.
  split_and!.
  - intros l. rewrite get_jobs_zero.
    split_and!; [done | apply sorted_jobs_Permutation |].
    eapply StronglySorted_weaken; [| apply sorted_jobs_ordered].
    intros j1 j2. apply key_le_spec.
  - apply get_jobs_negative.
  - intros int w s limit. apply get_jobs_api_passes_limit.
Qed.

Lemma get_jobs_nonpositive_limit_witness :
  get_jobs (jobs (sim world0)) (-2) =
    drop 2 (sorted tuple_lt sort_key (jobs (sim world0))) /\
  get_jobs_api decimal_reader (Some "-2") world0 =
    Ok (get_jobs (jobs (sim world0)) (-2)).
Proof.
  destruct get_jobs_nonpositive_limit as (_ & Hneg & Hapi).
  split.
  - apply (Hneg (jobs (sim world0)) (-2)). lia.
  - apply (Hapi decimal_reader world0 "-2" (-2)). reflexivity.
Defined.

Example get_jobs_api_limit_zero :
  get_jobs_api decimal_reader (Some "0") world0 =
  Ok (sorted tuple_lt sort_key (jobs (sim world0))).
Proof. reflexivity. Qed.

(** C3.  At [limit = 0] on a collection of one job [get_jobs] returns that
    job, where the last zero entries of the sorted collection are none: the
    slice [sorted_jobs[-0:]] is [sorted_jobs[0:]]. *)
Theorem get_jobs_limit_zero_returns_all :
  get_jobs [job0] 0 = [job0] /\
  last_entries 0 (sorted tuple_lt sort_key [job0]) = [].
Proof. split; reflexivity. Qed.

(** C4.  At [limit = 0], a limit smaller than the size of any non-empty
    collection, [get_jobs] returns as many entries as the collection holds,
    not zero: one entry for a collection of one job. *)
Theorem get_jobs_limit_zero_length :
  (forall l : list Job, length (get_jobs l 0) = length l) /\
  0 < Z.of_nat (length [job0]) /\ length (get_jobs [job0] 0) = 1%nat.
Proof.
  split_and!; [| done | done].
  intros l. by rewrite get_jobs_zero, sorted_length.
Qed.

(** * Further properties of the engine *)

(** ** Listing with a positive limit *)



(** With a limit that is at least the size of the collection, [get_jobs]
    returns every job exactly once, in sorted order, and jobs with the same
    status and the same [created_at] stay in the order of the collection. *)
Theorem get_jobs_all_stable (l : list Job) (limit : Z) :
  Z.of_nat (length l) <= limit ->
  get_jobs l limit ≡ₚ l /\
  StronglySorted key_le (get_jobs l limit) /\
  forall k : Job,
    filter (fun j => sort_key j = sort_key k) (get_jobs l limit) =
    filter (fun j => sort_key j = sort_key k) l.
Proof.
  intros Hlim.
  assert (Hall : get_jobs l limit = sorted tuple_lt sort_key l).
  { destruct (Z.eq_dec limit 0) as [-> | Hne]; [apply get_jobs_zero |].
    destruct (get_jobs_positive l limit) as (-> & _); [lia |].
    unfold last_entries. rewrite sorted_length.
    replace (length l - Z.to_nat limit)%nat with 0%nat by lia. done. }
  rewrite Hall. split_and!.
  - apply sorted_jobs_Permutation.
  - apply sorted_jobs_ordered.
  - intros k. apply sorted_stable. apply tuple_lt_asym.
Qed.

Lemma get_jobs_all_stable_witness : get_jobs (jobs (sim world0)) 50 ≡ₚ jobs (sim world0).
Proof.
  apply (get_jobs_all_stable (jobs (sim world0)) 50). vm_compute. discriminate.
Defined.

(** ** Jobs and their ids over time *)

Lemma advanced_rtc (j j' : Job) :
  advanced j j' -> rtc transition (status j) (status j').
Proof. intros [-> | [Ht _]]; [done | by apply rtc_once]. Qed.

Lemma rtc_transition_terminal (s s' : Status) :
  terminal s -> rtc transition s s' -> s' = s.
Proof.
  intros Hterm Hrtc. destruct Hrtc as [|s s1 s' Ht _]; [done |].
  destruct Hterm as [-> | ->]; inversion Ht.
Qed.

(** Every job of the collection after a run descends from a job of the
    collection before it, or from a job created during the run, along the
    status chain. *)
Lemma exec_job_history (h : Host) (ops : list Op) (w : World) (j' : Job) :
  j' ∈ jobs (sim (exec h ops w)) ->
  exists j, (j ∈ jobs (sim w) \/ j ∈ created h ops w) /\
            same_but_status j j' /\ rtc transition (status j) (status j').
Proof.
  revert j'. induction ops as [|op ops IH] using rev_ind; intros j' Hj'.
  - exists j'. split_and!; [by left | apply same_but_status_refl | done].
  - rewrite exec_snoc in Hj'. rewrite created_app. simpl created. rewrite app_nil_r.
    destruct (step_shape h op (exec h ops w)) as (l & Hsub & HF).
    destruct (Forall2_elem_of_r _ _ _ _ HF Hj') as (j1 & Hj1 & Hadv).
    apply (sublist_subseteq _ _ Hsub), elem_of_app in Hj1 as [Hold | Hnew].
    + destruct (IH _ Hold) as (j0 & Hj0 & Hs0 & Hr0). exists j0. split_and!.
      * destruct Hj0 as [? | ?]; [by left | right; apply elem_of_app; by left].
      * eapply same_but_status_trans; [done | by apply advanced_same_but_status].
      * etrans; [done | by apply advanced_rtc].
    + exists j1. split_and!.
      * right. apply elem_of_app. by right.
      * by apply advanced_same_but_status.
      * by apply advanced_rtc.
Qed.

Lemma NoDup_fmap_eq {A B : Type} (f : A -> B) (l : list A) (x y : A) :
  NoDup (f <$> l) -> x ∈ l -> y ∈ l -> f x = f y -> x = y.
Proof.
  induction l as [|a l IH]; intros Hnd Hx Hy Hf; [by apply elem_of_nil in Hx |].
  rewrite fmap_cons in Hnd. apply NoDup_cons in Hnd as [Ha Hnd].
  apply elem_of_cons in Hx as [-> | Hx], Hy as [-> | Hy]; [done | | | by apply IH].
  - exfalso. apply Ha. rewrite Hf. by apply list_elem_of_fmap_2.
  - exfalso. apply Ha. rewrite <- Hf. by apply list_elem_of_fmap_2.
Qed.

(** The numbers behind the ids of a collection reached from a new simulator
    lie below the counter. *)
Lemma exec_ids_below (h : Host) (m : Z) (g : Rng) (c : nat) (ops : list Op) (j : Job) :
  j ∈ jobs (sim (exec h ops (boot m g c))) ->
  exists n, id j = mk_id n /\ 1 <= n < job_counter (sim (exec h ops (boot m g c))).
Proof.
  intros Hj.
  destruct (exec_ids h ops (boot m g c) []) as (_ & Hn & ns & Hids & Hs); [done |].
  simpl in Hn, Hs. apply (list_elem_of_fmap_2 id) in Hj. rewrite Hids in Hj.
  apply list_elem_of_fmap in Hj as (n & Hid & Hin). exists n. split; [done |].
  apply (sublist_subseteq _ _ Hs), elem_of_seqZ in Hin. lia.
Qed.

(** The ids handed out during a run start at the counter. *)
Lemma created_ids_from_counter (h : Host) (m : Z) (g : Rng) (c : nat)
    (ops1 ops2 : list Op) (j : Job) :
  j ∈ created h ops2 (exec h ops1 (boot m g c)) ->
  exists n, id j = mk_id n /\ job_counter (sim (exec h ops1 (boot m g c))) <= n.
Proof.
  intros Hj.
  destruct (exec_ids h ops1 (boot m g c) []) as (_ & _ & ns & Hids & _); [done |].
  destruct (exec_ids h ops2 _ ns Hids) as (Hcr & _).
  apply (list_elem_of_fmap_2 id) in Hj. rewrite Hcr in Hj.
  apply list_elem_of_fmap in Hj as (n & Hid & Hin). exists n. split; [done |].
  apply elem_of_seqZ in Hin. lia.
Qed.

(** A job of a later collection whose id was in use earlier is the job that
    carried the id then. *)
Lemma later_job_same_id (h : Host) (m : Z) (g : Rng) (c : nat)
    (ops1 ops2 : list Op) (j1 j2 : Job) :
  j1 ∈ jobs (sim (exec h ops1 (boot m g c))) ->
  j2 ∈ jobs (sim (exec h (ops1 ++ ops2) (boot m g c))) ->
  id j1 = id j2 ->
  exists j, j ∈ jobs (sim (exec h ops1 (boot m g c))) /\ id j = id j1 /\
            same_but_status j j2 /\ rtc transition (status j) (status j2).
Proof.
  intros H1 H2 Hid. rewrite exec_app in H2.
  destruct (exec_job_history _ _ _ _ H2) as (j & [Hold | Hnew] & Hs & Hr).
  - exists j. split_and!; try done. rewrite Hid. symmetry. by apply same_but_status_id.
  - exfalso. destruct (created_ids_from_counter _ _ _ _ _ _ _ Hnew) as (n & Hn & Hge).
    destruct (exec_ids_below _ _ _ _ _ _ H1) as (n1 & Hn1 & Hlt).
    apply same_but_status_id in Hs.
    assert (n = n1) by (apply (inj mk_id); congruence). lia.
Qed.

(** An id never passes to another job: a job found under the id of an
    earlier job is that job, with the fields it was created with and a
    status that is the same or further along the chain; a job that was
    COMPLETED or FAILED is found unchanged. *)
Theorem id_names_one_job (h : Host) (m : Z) (g : Rng) (c : nat)
    (ops1 ops2 : list Op) (j1 j2 : Job) :
  j1 ∈ jobs (sim (exec h ops1 (boot m g c))) ->
  j2 ∈ jobs (sim (exec h (ops1 ++ ops2) (boot m g c))) ->
  id j1 = id j2 ->
  same_but_status j1 j2 /\ rtc transition (status j1) (status j2) /\
  (terminal (status j1) -> j2 = j1).
Proof.
  intros H1 H2 Hid.
  destruct (later_job_same_id _ _ _ _ _ _ _ _ H1 H2 Hid) as (j & Hj & Hjid & Hs & Hr).
  assert (j = j1) as ->.
  { eapply (NoDup_fmap_eq id); [apply exec_ids_NoDup | done | done | done]. }
  split_and!; [done | done |].
  intros Hterm. rewrite Hs, (rtc_transition_terminal _ _ Hterm Hr).
  apply set_status_same.
Qed.

(** Once a lookup of the id of an earlier job finds nothing (the job was
    evicted or cleared), no later lookup of that id finds anything. *)
Theorem removed_id_stays_unknown (h : Host) (m : Z) (g : Rng) (c : nat)
    (ops1 ops2 ops3 : list Op) (j1 : Job) :
  j1 ∈ jobs (sim (exec h ops1 (boot m g c))) ->
  get_job (jobs (sim (exec h (ops1 ++ ops2) (boot m g c)))) (id j1) = EmptyDict ->
  get_job (jobs (sim (exec h (ops1 ++ ops2 ++ ops3) (boot m g c)))) (id j1) = EmptyDict.
Proof.
  intros H1 Hgone. apply get_job_not_found. intros j3 H3 Hid.
  rewrite app_assoc, exec_app in H3.
  destruct (exec_job_history _ _ _ _ H3) as (j & [Hold | Hnew] & Hs & _);
    apply same_but_status_id in Hs.
  - rewrite get_job_not_found in Hgone. apply (Hgone j Hold). congruence.
  - destruct (created_ids_from_counter _ _ _ _ _ _ _ Hnew) as (n & Hn & Hge).
    destruct (exec_ids_below _ _ _ _ _ _ H1) as (n1 & Hn1 & Hlt).
    assert (n = n1) by (apply (inj mk_id); congruence).
    destruct (exec_ids h ops1 (boot m g c) []) as (_ & _ & ns & Hids & _); [done |].
    destruct (exec_ids h ops2 _ ns Hids) as (_ & Hcnt & _).
    rewrite <- exec_app in Hcnt. lia.
Qed.

Lemma id_names_one_job_witness :
  same_but_status running3 done0 /\
  rtc transition (status running3) (status done0) /\
  (terminal (status running3) -> done0 = running3).
Proof.
  apply (id_names_one_job host0 3 rng0 0%nat (take 5 ops0) (drop 5 ops0)).
  - apply (list_elem_of_lookup_2 _ 2%nat). vm_compute. reflexivity.
  - apply (list_elem_of_lookup_2 _ 1%nat). vm_compute. reflexivity.
  - vm_compute. reflexivity.
Defined.

Lemma removed_id_stays_unknown_witness :
  get_job (jobs (sim (exec host0 (take 1 ops0 ++ drop 1 ops0 ++ [UpdateJobs])
                           (boot 3 rng0 0)))) (id first_job) = EmptyDict.
Proof.
  apply (removed_id_stays_unknown host0 3 rng0 0%nat (take 1 ops0) (drop 1 ops0)
           [UpdateJobs] first_job).
  - apply (list_elem_of_lookup_2 _ 0%nat). vm_compute. reflexivity.
  - vm_compute. reflexivity.
Defined.

(** ** Creation followed by lookup *)

Lemma append_bounded_last (m : Z) (l : list Job) (j : Job) :
  1 <= m -> Z.of_nat (length l) <= m -> last (append_bounded m l j) = Some j.
Proof.
  intros Hm Hl. unfold append_bounded.
  destruct (Z.ltb_spec m (Z.of_nat (length (l ++ [j])))) as [H | H].
  - rewrite length_app in H. simpl in H.
    destruct l as [|x l]; simpl in *; [lia |]. apply last_snoc.
  - apply last_snoc.
Qed.

(** In a simulator with room for at least one job, the job [create_job]
    returns is the last entry of the collection and is the job found under
    its id, an id no job of the collection carried before.  With
    [max_jobs = 0] the job returned is dropped at once: the collection is
    empty after every operation. *)
Theorem create_job_then_get_job (h : Host) (m : Z) (g : Rng) (c : nat) (ops : list Op) :
  (forall (b : bool) (j : Job) (w' : World),
     1 <= m ->
     create_job h b (exec h ops (boot m g c)) = (Ok j, w') ->
     last (jobs (sim w')) = Some j /\
     get_job (jobs (sim w')) (id j) = JobDict j /\
     get_job (jobs (sim (exec h ops (boot m g c)))) (id j) = EmptyDict) /\
  (m = 0 -> jobs (sim (exec h ops (boot m g c))) = []).
Proof.
  split.
  - intros b j w' Hm Hc. set (w := exec h ops (boot m g c)) in *.
    destruct (exec_length_bound h ops (boot m g c)) as [Hmax Hlen]; [simpl; lia.. |].
    fold w in Hmax, Hlen. simpl in Hmax, Hlen.
    assert (Hw' : w' = exec h (ops ++ [CreateJob b]) (boot m g c)).
    { rewrite exec_snoc. fold w. simpl. by rewrite Hc. }
    pose proof (create_job_spec h b w) as Hs. rewrite Hc in Hs.
    destruct Hs as (_ & Hid & _ & _ & Hsim).
    assert (Hlast : last (jobs (sim w')) = Some j).
    { rewrite Hsim. simpl. rewrite Hmax. by apply append_bounded_last. }
    split_and!; [done | |].
    + rewrite Hw'. apply get_job_unique; [apply exec_ids_NoDup |].
      rewrite <- Hw'. apply last_Some in Hlast as [l' ->].
      apply elem_of_app. right. by left.
    + apply get_job_not_found. intros x Hx Hxid.
      destruct (exec_ids_below _ _ _ _ _ _ Hx) as (n & Hn & Hlt). fold w in Hlt.
      assert (n = job_counter (sim w)) by (apply (inj mk_id); congruence). lia.
  - intros ->.
    destruct (exec_length_bound h ops (boot 0 g c)) as [_ Hlen]; [simpl; lia.. |].
    simpl in Hlen. destruct (jobs (sim (exec h ops (boot 0 g c)))); [done |].
    simpl in Hlen. lia.
Qed.


Lemma create_job_then_get_job_witness :
  (last (jobs (sim (snd (create_job host0 true world0)))) = Some fifth_job /\
   get_job (jobs (sim (snd (create_job host0 true world0)))) (id fifth_job) =
     JobDict fifth_job /\
   get_job (jobs (sim (exec host0 ops0 (boot 3 rng0 0)))) (id fifth_job) = EmptyDict) /\
  jobs (sim (exec host0 ops0 (boot 0 rng0 0))) = [].
Proof.
  destruct (create_job_then_get_job host0 3 rng0 0%nat ops0) as [Hget _].
  destruct (create_job_then_get_job host0 0 rng0 0%nat ops0) as [_ Hzero].
  split.
  - apply (Hget true fifth_job (snd (create_job host0 true world0))); [lia |].
    vm_compute. reflexivity.
  - apply Hzero. reflexivity.
Defined.

(** ** Clearing twice *)

Lemma filter_all {A : Type} (P : A -> Prop) `{!forall a, Decision (P a)} (l : list A) :
  Forall P l -> filter P l = l.
Proof.
  induction 1 as [|x l Hx _ IH]; [done |]. by rewrite filter_cons_True, IH.
Qed.

Lemma filter_none {A : Type} (P : A -> Prop) `{!forall a, Decision (P a)} (l : list A) :
  Forall (fun a => ~ P a) l -> filter P l = [].
Proof.
  induction 1 as [|x l Hx _ IH]; [done |]. by rewrite filter_cons_False.
Qed.

(** After [clear_completed] no COMPLETED job is left, and a second call
    removes nothing and returns 0. *)
Theorem clear_completed_idempotent (s : Simulator) :
  Forall (fun j => status j <> COMPLETED) (jobs (snd (clear_completed s))) /\
  clear_completed (snd (clear_completed s)) = (0, snd (clear_completed s)).
Proof.
  assert (Hno : Forall (fun j => status j <> COMPLETED)
                       (jobs (snd (clear_completed s)))).
  { apply Forall_forall. intros j Hj. unfold clear_completed in Hj. simpl in Hj.
    by apply list_elem_of_filter in Hj as [? _]. }
  split; [done |].
  set (s1 := snd (clear_completed s)) in *.
  unfold clear_completed. rewrite (filter_all _ _ Hno), (filter_none _ _ Hno).
  subst s1. reflexivity.
Qed.

(** ** Random draws of the update loop *)

Lemma random_next (g : Rng) :
  stream (snd (random g)) = stream g /\ pos (snd (random g)) = S (pos g).
Proof. by unfold random, next_word. Qed.

Lemma update_job_draws (j : Job) (g : Rng) :
  stream (snd (update_job j g)) = stream g /\
  match status j with
  | QUEUED => pos (snd (update_job j g)) = S (pos g)
  | RUNNING => pos (snd (update_job j g)) = S (pos g) \/
               pos (snd (update_job j g)) = S (S (pos g))
  | COMPLETED | FAILED => update_job j g = (j, g)
  end.
Proof.
  unfold update_job. destruct (status j).
  - pose proof (random_next g) as [Hs Hp]. destruct (random g) as [x g1].
    simpl in *. by case_test.
  - pose proof (random_next g) as [Hs Hp]. destruct (random g) as [x g1].
    simpl in *. case_test; [| auto].
    pose proof (random_next g1) as [Hs1 Hp1]. destruct (random g1) as [y g2].
    simpl in *. case_test; simpl; split; try congruence; right; congruence.
  - done.
  - done.
Qed.

Lemma update_list_draws (l : list Job) (g : Rng) :
  stream (snd (update_list l g)) = stream g /\
  (pos g + count_status QUEUED l + count_status RUNNING l
     <= pos (snd (update_list l g))
     <= pos g + count_status QUEUED l + 2 * count_status RUNNING l)%nat /\
  (Forall (fun j => terminal (status j)) l -> update_list l g = (l, g)).
Proof.
  revert g. induction l as [|j l IH]; intros g.
  { unfold count_status. simpl. split; [done | split; [lia | done]]. }
  simpl update_list. pose proof (update_job_draws j g) as [Hs Hj].
  destruct (update_job j g) as [j' g1] eqn:Ej. simpl in Hs, Hj.
  destruct (IH g1) as (IHs & IHp & IHt). destruct (update_list l g1) as [l' g2] eqn:El.
  simpl in *. unfold count_status in *. rewrite fmap_cons. simpl.
  split; [| split].
  - congruence.
  - destruct (status j); simpl in *;
      repeat match goal with
             | |- context [Status_eq_dec ?a ?b] => destruct (Status_eq_dec a b); try done
             end;
      try (injection Hj as -> ->); lia.
  - intros Hall. apply Forall_cons in Hall as [Hterm Hl].
    destruct Hterm as [Hc | Hf]; rewrite ?Hc, ?Hf in Hj;
      injection Hj as -> ->; by injection (IHt Hl) as -> ->.
Qed.

(** One call of [update_jobs] takes one number from the generator for every
    QUEUED job and one or two for every RUNNING job, none for a COMPLETED or
    FAILED one, and reads no clock.  On a collection of finished jobs it
    changes nothing at all. *)
Theorem update_jobs_draws (w : World) :
  stream (rng (update_jobs w)) = stream (rng w) /\
  clock (update_jobs w) = clock w /\
  (pos (rng w) + count_status QUEUED (jobs (sim w))
               + count_status RUNNING (jobs (sim w))
     <= pos (rng (update_jobs w))
     <= pos (rng w) + count_status QUEUED (jobs (sim w))
                    + 2 * count_status RUNNING (jobs (sim w)))%nat /\
  (Forall (fun j => terminal (status j)) (jobs (sim w)) -> update_jobs w = w).
Proof.
  unfold update_jobs.
  destruct (update_list_draws (jobs (sim w)) (rng w)) as (Hs & Hp & Ht).
  destruct (update_list (jobs (sim w)) (rng w)) as [l g] eqn:E. simpl in *.
  split; [done | split; [done | split; [done |]]].
  intros Hall. injection (Ht Hall) as -> ->. by destruct w as [[] ? ?].
Qed.

Lemma update_jobs_draws_witness :
  update_jobs (with_sim (mkSimulator [done0] 2 true 3) world0) =
  with_sim (mkSimulator [done0] 2 true 3) world0.
Proof.
  apply update_jobs_draws. constructor; [| constructor]. left. vm_compute. reflexivity.
Defined.

(** ** Sampled fields *)










(** ** What no operation changes *)

Lemma step_running (h : Host) (op : Op) (w : World) :
  running (sim (snd (step h op w))) = running (sim w).
Proof.
  destruct op as [b | | limit | | job_id |]; simpl; try done.
  - pose proof (create_job_spec h b w) as Hs.
    destruct (create_job h b w) as [[j | e] w']; simpl.
    + by destruct Hs as (_ & _ & _ & _ & ->).
    + by destruct Hs as [_ ->].
  - apply update_jobs_running.
  - destruct (simulation_tick_cases h w)
      as [[_ ->] | [[g1 ->] | [(g1 & j & w1 & Hc & ->) | (g1 & e & w1 & Hc & ->)]]];
      simpl; rewrite ?update_jobs_running; try done;
      pose proof (create_job_spec h false (with_rng g1 w)) as Hs; rewrite Hc in Hs.
    + by destruct Hs as (_ & _ & _ & _ & ->).
    + by destruct Hs as [_ ->].
Qed.

Lemma created_length (h : Host) (ops : list Op) (w : World) :
  (length (created h ops w) <= length ops)%nat.
Proof.
  revert w. induction ops as [|op ops IH]; intros w; simpl; [done |].
  rewrite length_app. destruct (created_by_spec h op w) as (_ & Hone & _).
  specialize (IH (snd (step h op w))). lia.
Qed.

(** No operation clears the [running] flag or changes [max_jobs]: the loop
    of the simulation never ends through its own condition.  An operation
    adds at most one job, so after any sequence of operations on a new
    simulator the collection holds no more jobs than were created, and no
    more were created than operations ran. *)
Theorem running_and_capacity_constant (h : Host) (m : Z) (g : Rng) (c : nat) (ops : list Op) :
  running (sim (exec h ops (boot m g c))) = true /\
  max_jobs (sim (exec h ops (boot m g c))) = m /\
  (length (jobs (sim (exec h ops (boot m g c))))
     <= length (created h ops (boot m g c)) <= length ops)%nat.
Proof.
  split; [| split; [| split]].
  - induction ops as [|op ops IH] using rev_ind; [done |].
    by rewrite exec_snoc, step_running.
  - induction ops as [|op ops IH] using rev_ind; [done |].
    rewrite exec_snoc. destruct (created_by_spec h op (exec h ops (boot m g c)))
      as (_ & _ & _ & ->). done.
  - destruct (exec_ids h ops (boot m g c) []) as (_ & _ & ns & Hids & Hs); [done |].
    simpl in Hs. apply sublist_length in Hs. rewrite length_seqZ, Nat2Z.id in Hs.
    apply (f_equal length) in Hids. rewrite !length_fmap in Hids. lia.
  - apply created_length.
Qed.

(** ** Hosts that know UTC *)

(** On a host whose zone database knows UTC no operation of the engine
    raises, whatever zone name is configured. *)
Theorem no_operation_raises_with_utc (h : Host) (utc : Zone) (op : Op) (w : World) :
  ZoneInfo h "UTC" = Some utc -> exists v, fst (step h op w) = Ok v.
Proof. intros Hutc. by eapply step_total. Qed.

Lemma no_operation_raises_with_utc_witness :
  exists v, fst (step host1 SimulationTick world0) = Ok v.
Proof.
  apply (no_operation_raises_with_utc host1 (mkZone "UTC" 0)). reflexivity.
Defined.

(** * The pages behind the session *)

Lemma USERS_lookup (u p : string) :
  USERS !! u = Some p <-> (u = "admin" \/ u = "akhil") /\ p = u.
Proof.
  unfold USERS. rewrite lookup_insert. case_decide as Ha.
  - subst. split; [intros [= <-]; auto | intros [_ ->]; done].
  - rewrite lookup_insert. case_decide as Hb.
    + subst. split; [intros [= <-]; auto | intros [_ ->]; done].
    + rewrite lookup_empty. split; [done |]. intros [[-> | ->] _]; done.
Qed.

Lemma py_or_None (x : option string) :
  (py_or x None = None /\ (x = None \/ x = Some "")) \/
  (exists u, py_or x None = Some u /\ x = Some u /\ u <> "").
Proof.
  destruct x as [[|a u]|]; simpl; [left | right | left]; auto.
  exists (String a u). done.
Qed.

(** [login] writes the session only for a POST whose user name is admin or
    akhil and whose password equals the user name; it then stores that name
    under 'user' and redirects.  Every other request gets the login page and
    leaves the session as it was. *)
Theorem login_needs_listed_credentials (r : Request) (s : Session) :
  (method r = POST /\
   (exists u, (u = "admin" \/ u = "akhil") /\
              form r !! "username" = Some u /\ form r !! "password" = Some u) /\
   exists u loc, form r !! "username" = Some u /\
                 login r s = (Redirect loc, <["user" := u]> s)) \/
  (~ (method r = POST /\
      exists u, (u = "admin" \/ u = "akhil") /\
                form r !! "username" = Some u /\ form r !! "password" = Some u) /\
   snd (login r s) = s /\
   exists context, fst (login r s) = Template "login.html" context).
Proof.
  unfold login. destruct (method r) eqn:Hm.
  { right. split_and!; [by intros [? _] | done | by eexists]. }
  case_bool_decide as Hu.
  - apply USERS_lookup in Hu as [Hname Hpw].
    assert (exists u, form r !! "username" = Some u /\ form r !! "password" = Some u
                      /\ (u = "admin" \/ u = "akhil")) as (u & Hfu & Hfp & Hu).
    { destruct (form r !! "username") as [u|] eqn:Eu; simpl in *;
        [| by destruct Hname].
      destruct (form r !! "password") as [p|] eqn:Ep; simpl in *.
      - subst p. by exists u.
      - subst u. by destruct Hname. }
    left. split_and!; [done | by exists u |].
    rewrite Hfu. simpl. by eexists _, _.
  - right. split_and!; [| done | by eexists].
    intros (_ & u & Hname & Hfu & Hfp). apply Hu. rewrite Hfu, Hfp. simpl.
    by apply USERS_lookup.
Qed.

(** After a successful login the browser is sent to the [next] query
    parameter exactly as it was given, whatever it is, and to the dashboard
    when the parameter is missing or empty. *)
Theorem login_redirects_to_next (r : Request) (s s' : Session) (loc : Location) :
  login r s = (Redirect loc, s') ->
  (forall u, args r !! "next" = Some u -> u <> "" -> loc = Url u) /\
  (args r !! "next" = None \/ args r !! "next" = Some "" ->
   loc = UrlFor ep_index None).
Proof.
  unfold login. destruct (method r); [done |].
  case_bool_decide; [| done]. intros [= <- _].
  destruct (py_or_None (args r !! "next")) as [[-> Hn] | (u & -> & Hn & Hne)].
  - split; [| done]. intros u Hu Hne. destruct Hn; congruence.
  - split; [intros u' Hu' _; congruence |]. intros [? | ?]; congruence.
Qed.

(** The dashboard is rendered exactly for a session with a non-empty
    'user', for that user; any other session is redirected to the login
    page with the requested path as [next].  The session is not written. *)
Theorem index_requires_user (r : Request) (s : Session) :
  snd (index r s) = s /\
  ((exists u, s !! "user" = Some u /\ u <> "" /\
              fst (index r s) = Template "dashboard.html" [("user", Some u)]) \/
   ((s !! "user" = None \/ s !! "user" = Some "") /\
    fst (index r s) = Redirect (UrlFor ep_login (Some (path r))))).
Proof.
  unfold index, login_required.
  destruct (py_or_None (s !! "user")) as [[-> Hn] | (u & -> & Hu & Hne)]; simpl.
  - split; [done |]. by right.
  - split; [done |]. left. exists u. by rewrite Hu.
Qed.

(** A login with listed credentials opens the dashboard for that user, and
    a logout closes it again: the next request for the dashboard is sent to
    the login page. *)
Theorem login_then_dashboard_then_logout (r r1 r2 r3 : Request) (s : Session) (u : string) :
  method r = POST -> u = "admin" \/ u = "akhil" ->
  form r !! "username" = Some u -> form r !! "password" = Some u ->
  fst (index r1 (snd (login r s))) = Template "dashboard.html" [("user", Some u)] /\
  snd (logout r2 (snd (login r s))) = ∅ /\
  fst (index r3 (snd (logout r2 (snd (login r s))))) =
    Redirect (UrlFor ep_login (Some (path r3))).
Proof.
  intros Hm Hu Hfu Hfp.
  assert (Hs : snd (login r s) = <["user" := u]> s).
  { unfold login. rewrite Hm, Hfu, Hfp. simpl.
    rewrite bool_decide_true; [done |]. by apply USERS_lookup. }
  rewrite Hs. split_and!; [| done | done].
  destruct (index_requires_user r1 (<["user" := u]> s))
    as (_ & [(u' & Hu' & _ & ->) | ([Hn | Hn] & _)]);
    rewrite lookup_insert_eq in *; try congruence.
  destruct Hu; congruence.
Qed.

Lemma login_redirects_to_next_witness :
  fst (login post_admin ∅) = Redirect (Url "https://example.org/away").
Proof.
  destruct (login_redirects_to_next post_admin ∅ (snd (login post_admin ∅))
              (Url "https://example.org/away")) as [Hnext _].
  - vm_compute. reflexivity.
  - vm_compute. reflexivity.
Defined.

Lemma login_then_dashboard_then_logout_witness :
  fst (index get_home (snd (login post_admin ∅))) =
    Template "dashboard.html" [("user", Some "admin")].
Proof.
  apply (login_then_dashboard_then_logout post_admin get_home get_home get_home ∅ "admin").
  - reflexivity.
  - by left.
  - vm_compute. reflexivity.
  - vm_compute. reflexivity.
Defined.

(** * The development sign-in *)

Section JsonFacts.
Context {PyObj : Type} (truthy : PyObj -> bool)
  (as_dict : PyObj -> option (string -> option PyObj)).

(** [auth_google] never looks into the token.  A body that is a dict with a
    truthy 'id_token' signs the session in as google_user whenever
    [app.debug] is set or the environment variable is '1', and is answered
    with 501 and an untouched session otherwise; the answer is the same for
    every such token.  A missing body, a falsy one, or a dict without a
    truthy 'id_token' is answered with 400.  A truthy body that is not a
    dict makes the view raise AttributeError. *)
Theorem auth_google_outcomes (flags : DevFlags) (s : Session) :
  (forall (p : PyObj) (d : string -> option PyObj) (t : PyObj),
     truthy p = true -> as_dict p = Some d ->
     d "id_token" = Some t -> truthy t = true ->
     auth_google truthy as_dict flags (Some p) s =
       if debug flags || bool_decide (ALLOW_DEV_GOOGLE_UNVERIFIED flags = Some "1")
       then Returns (JsonRedirect (UrlFor ep_index None),
                     <["user" := "google_user"]> s)
       else Returns (JsonError 501
         "server not configured to verify Google tokens. Implement verification or set ALLOW_DEV_GOOGLE_UNVERIFIED=1 for dev",
         s)) /\
  auth_google truthy as_dict flags None s =
    Returns (JsonError 400 "missing id_token", s) /\
  (forall p : PyObj,
     truthy p = false ->
     auth_google truthy as_dict flags (Some p) s =
       Returns (JsonError 400 "missing id_token", s)) /\
  (forall (p : PyObj) (d : string -> option PyObj),
     truthy p = true -> as_dict p = Some d ->
     from_option truthy false (d "id_token") = false ->
     auth_google truthy as_dict flags (Some p) s =
       Returns (JsonError 400 "missing id_token", s)) /\
  (forall p : PyObj,
     truthy p = true -> as_dict p = None ->
     auth_google truthy as_dict flags (Some p) s = RaisesAttributeError).
Proof.
  unfold auth_google. split_and!.
  - intros p d t Hp Hd Ht Htt. rewrite Hp, Hd, Ht. simpl. rewrite Htt. simpl.
    by destruct (debug flags || _).
  - done.
  - intros p Hp. by rewrite Hp.
  - intros p d Hp Hd Ht. rewrite Hp, Hd. by rewrite Ht.
  - intros p Hp Hd. by rewrite Hp, Hd.
Qed.

Lemma visit_session (flags : DevFlags) (v : Visit) (s : Session) :
  visit truthy as_dict flags v s = s \/
  visit truthy as_dict flags v s = ∅ \/
  (exists u, (u = "admin" \/ u = "akhil") /\
             visit truthy as_dict flags v s = <["user" := u]> s) \/
  ((debug flags = true \/ ALLOW_DEV_GOOGLE_UNVERIFIED flags = Some "1") /\
   visit truthy as_dict flags v s = <["user" := "google_user"]> s).
Proof.
  destruct v as [r | r | r | body]; simpl.
  - destruct (login_needs_listed_credentials r s)
      as [(_ & (u & Hu & Hfu & _) & (u' & loc & Hfu' & ->)) | (_ & -> & _)];
      [| by left].
    right; right; left. exists u'. split; [congruence | done].
  - right. by left.
  - left. apply index_requires_user.
  - unfold auth_google.
    destruct body as [p|]; [| by left].
    destruct (truthy p); [| by left].
    destruct (as_dict p) as [d|]; [| by left].
    destruct (from_option truthy false (d "id_token")); simpl; [| by left].
    destruct (debug flags) eqn:Hd; simpl.
    { right; right; right. split; [by left | done]. }
    case_bool_decide; [| by left].
    right; right; right. split; [by right | done].
Qed.

(** Starting from an empty session and whatever requests follow, the
    session holds nothing but a 'user' that is admin, akhil or google_user;
    it is google_user only where [app.debug] is set or the environment
    variable is '1'.  So the dashboard is rendered for those names only. *)
Theorem session_holds_listed_user (flags : DevFlags) (vs : list Visit)
    (k v : string) :
  visits truthy as_dict flags vs ∅ !! k = Some v ->
  k = "user" /\
  (v = "admin" \/ v = "akhil" \/
   (v = "google_user" /\
    (debug flags = true \/ ALLOW_DEV_GOOGLE_UNVERIFIED flags = Some "1"))).
Proof.
  revert k v. unfold visits.
  induction vs as [|x vs IH] using rev_ind; intros k v; simpl.
  - by rewrite lookup_empty.
  - rewrite fold_left_app. simpl.
    set (s := fold_left _ vs ∅) in *.
    destruct (visit_session flags x s)
      as [-> | [-> | [(u & Hu & ->) | (Hf & ->)]]].
    + apply IH.
    + by rewrite lookup_empty.
    + rewrite lookup_insert. case_decide as Hk; [| apply IH].
      intros [= <-]. split; [done |]. destruct Hu; auto.
    + rewrite lookup_insert. case_decide as Hk; [| apply IH].
      intros [= <-]. split; [done |]. auto.
Qed.
End JsonFacts.

Lemma auth_google_outcomes_witness :
  auth_google sample_truthy sample_as_dict flags_env body_token ∅ =
    Returns (JsonRedirect (UrlFor ep_index None), {["user" := "google_user"]}) /\
  auth_google sample_truthy sample_as_dict flags_off body_token ∅ =
    Returns (JsonError 501
      "server not configured to verify Google tokens. Implement verification or set ALLOW_DEV_GOOGLE_UNVERIFIED=1 for dev",
      ∅) /\
  auth_google sample_truthy sample_as_dict flags_env (Some (SampleText "token")) ∅ =
    RaisesAttributeError.
Proof.
  destruct (auth_google_outcomes sample_truthy sample_as_dict flags_env ∅)
    as (Hok & _ & _ & _ & Hraise).
  destruct (auth_google_outcomes sample_truthy sample_as_dict flags_off ∅)
    as (Hoff & _).
  unfold body_token. split_and!.
  - erewrite (Hok (SampleDict [("id_token", "not-a-real-token")]) _
                (SampleText "not-a-real-token"));
      first [reflexivity | vm_compute; reflexivity].
  - erewrite (Hoff (SampleDict [("id_token", "not-a-real-token")]) _
                (SampleText "not-a-real-token"));
      first [reflexivity | vm_compute; reflexivity].
  - apply Hraise; reflexivity.
Defined.

Lemma session_holds_listed_user_witness :
  "user" = "user" /\
  ("admin" = "admin" \/ "admin" = "akhil" \/
   ("admin" = "google_user" /\
    (debug flags_off = true \/ ALLOW_DEV_GOOGLE_UNVERIFIED flags_off = Some "1"))).
Proof.
  apply (session_holds_listed_user sample_truthy sample_as_dict flags_off
           [VisitAuthGoogle body_token; VisitLogin post_admin; VisitIndex get_home]).
  vm_compute. reflexivity.
Defined.

(** * The JSON views of the engine *)

(** [get_job_api] answers 404 exactly when no job of the collection has the
    id.  In a simulator with room for at least one job, the job that
    [create_job_api] returns is manual and QUEUED, was unknown before
    (404), is served under its id afterwards (200, the same job), and is the
    sample job of [sim_status], whose count is between 1 and [max_jobs]. *)
Theorem api_create_then_lookup (h : Host) (m : Z) (g : Rng) (c : nat) (ops : list Op) :
  (forall job_id : string,
     get_job_api job_id (exec h ops (boot m g c)) = ReplyError 404 "Job not found" <->
     forall j, j ∈ jobs (sim (exec h ops (boot m g c))) -> id j <> job_id) /\
  (forall (code : Z) (j : Job) (w' : World),
     1 <= m ->
     create_job_api h (exec h ops (boot m g c)) = (Ok (ReplyJob code j), w') ->
     code = 200 /\ manual j = true /\ status j = QUEUED /\
     get_job_api (id j) (exec h ops (boot m g c)) = ReplyError 404 "Job not found" /\
     get_job_api (id j) w' = ReplyJob 200 j /\
     exists n, sim_status w' = ReplyStatus true n (Some j) /\ 1 <= n <= m).
Proof.
  split.
  - intros job_id. unfold get_job_api. rewrite <- get_job_not_found.
    by destruct (get_job _ _).
  - intros code j w' Hm. unfold create_job_api.
    destruct (create_job h true (exec h ops (boot m g c))) as [[j0 | e] w0] eqn:Hc;
      [| done].
    intros [= <- <- <-].
    destruct (create_job_then_get_job h m g c ops) as [Hget _].
    destruct (Hget true j0 w0 Hm Hc) as (Hlast & Hfound & Hfresh).
    pose proof (create_job_spec h true (exec h ops (boot m g c))) as Hs.
    rewrite Hc in Hs. destruct Hs as (_ & _ & Hst & Hman & _).
    assert (Hw0 : w0 = exec h (ops ++ [CreateJob true]) (boot m g c)).
    { rewrite exec_snoc. simpl. by rewrite Hc. }
    unfold get_job_api, sim_status. rewrite Hfresh, Hfound, Hlast.
    split_and!; try done.
    eexists. split.
    + f_equal. rewrite Hw0. apply running_and_capacity_constant.
    + destruct (exec_length_bound h (ops ++ [CreateJob true]) (boot m g c))
        as [_ Hlen]; [simpl; lia.. |].
      rewrite <- Hw0 in Hlen. simpl in Hlen.
      apply last_Some in Hlast as [l' Hl']. rewrite Hl' in *.
      rewrite length_app in *. simpl in *. lia.
Qed.

Lemma api_create_then_lookup_witness :
  get_job_api (id fifth_job)
    (snd (create_job_api host0 (exec host0 ops0 (boot 3 rng0 0)))) =
  ReplyJob 200 fifth_job.
Proof.
  destruct (api_create_then_lookup host0 3 rng0 0%nat ops0) as [_ Hcreate].
  destruct (Hcreate 200 fifth_job
              (snd (create_job_api host0 (exec host0 ops0 (boot 3 rng0 0)))))
    as (_ & _ & _ & _ & Hfound & _).
  - lia.
  - vm_compute. reflexivity.
  - exact Hfound.
Defined.
